(** * httpfs: the adapter over an absfs.Filer, and its recursive delete

    A shallow embedding of [httpfs.go] (package [httpfs] of absfs/httpfs).
    The adapter is a thin layer over a backing filesystem (an [absfs.Filer]);
    its only logic is [MkdirAll] and [RemoveAll].  The backing filesystem is
    an interface in the Go code and is a record of state transformers here;
    every call the adapter makes on it is recorded, with its result, in a
    trace, so that statements about which calls are made, and in which
    order, can be written down. *)

From Stdlib Require Import String Ascii List ZArith Bool Arith Lia.
Import ListNotations.
Local Open Scope string_scope.
Local Open Scope list_scope.

Set Implicit Arguments.
Set Warnings "-register-all".

(* ===================================================================== *)
(** ** The pieces of the Go standard library that [httpfs.go] calls     *)
(* ===================================================================== *)

Module GoPath.

(** [strings.Split(s, "/")]: the substrings of [s] between slashes.  As in
    Go, the result is never empty: [Split ""] is [[""]]. *)
Fixpoint Split (s : string) : list string :=
  match s with
  | EmptyString => [""]
  | String c s' =>
      if Ascii.eqb c "/" then "" :: Split s'
      else match Split s' with
           | h :: t => String c h :: t
           | [] => [String c ""]
           end
  end.

(** [strings.Join(l, "/")]. *)
Fixpoint JoinSlash (l : list string) : string :=
  match l with
  | [] => ""
  | [x] => x
  | x :: rest => (x ++ "/" ++ JoinSlash rest)%string
  end.

Definition rooted (path : string) : bool :=
  match path with
  | String c _ => Ascii.eqb c "/"
  | EmptyString => false
  end.

(** One iteration of the loop of [path.Clean], on a whole path element.
    [out] is the output buffer as a stack of elements, last written first.
    A [".."] on top of the stack is one of the leading [".."] of a path that
    is not rooted: the buffer cannot backtrack past it (Go's [dotdot]
    index). *)
Definition clean_step (is_rooted : bool) (out : list string) (elem : string)
  : list string :=
  if elem =? "" then out                       (* empty path element *)
  else if elem =? "." then out                 (* . element *)
  else if elem =? ".." then                    (* .. element *)
    match out with
    | top :: below =>
        if top =? ".." then (if is_rooted then out else elem :: out)
        else below                             (* can backtrack *)
    | [] => if is_rooted then [] else [elem]   (* cannot backtrack *)
    end
  else elem :: out.                            (* real path element *)

Definition clean_elems (is_rooted : bool) (path : string) : list string :=
  rev (fold_left (clean_step is_rooted) (Split path) []).

(** [path.Clean]: the shortest path name equivalent to [path] by purely
    lexical processing. *)
Definition Clean (path : string) : string :=
  if path =? "" then "."
  else
    let r := rooted path in
    match clean_elems r path with
    | [] => if r then "/" else "."
    | out => ((if r then "/" else "") ++ JoinSlash out)%string
    end.

(** [path.Join(a, b)]: empty elements are ignored, the rest are joined by a
    slash and the result is cleaned; all elements empty gives [""]. *)
Definition Join (a b : string) : string :=
  if a =? "" then (if b =? "" then "" else Clean b)
  else if b =? "" then Clean a
  else Clean (a ++ "/" ++ b).

(** A string without a slash: a single path element. *)
Definition noslash (x : string) : Prop :=
  forallb (fun c => negb (Ascii.eqb c "/")) (list_ascii_of_string x) = true.

(** What the buffer of [path.Clean] holds: no empty element, no [.], and
    no [..] when the path is rooted. *)
Definition kept (is_rooted : bool) (x : string) : Prop :=
  (x =? "") = false /\ (x =? ".") = false /\
  (is_rooted = true -> (x =? "..") = false).

End GoPath.

(* ===================================================================== *)
(** ** Errors, file information and the backing filesystem interface     *)
(* ===================================================================== *)

(** Go's [error] values are opaque; the adapter only ever classifies them
    with [os.IsNotExist] and [os.IsExist].  A nil [error] is [None]. *)
Class ErrorKind (E : Type) := {
  IsNotExist : E -> bool;
  IsExist : E -> bool
}.

Definition os_IsNotExist {E} `{ErrorKind E} (err : option E) : bool :=
  match err with
  | Some e => IsNotExist e
  | None => false
  end.

(** [os.FileInfo]. *)
Record FileInfo := mkFileInfo {
  Name : string;
  Size : Z;
  Mode : Z;
  ModTime : Z;
  IsDir : bool
}.

(** A Go result pair [(T, error)], of which callers read the value only
    when the error is nil. *)
Inductive result (E A : Type) : Type :=
| Ok (a : A)
| Err (e : E).
Arguments Ok {E A} a.
Arguments Err {E A} e.

Definition result_err {E A} (r : result E A) : option E :=
  match r with
  | Ok _ => None
  | Err e => Some e
  end.

(** [os.O_RDONLY]. *)
Definition O_RDONLY : Z := 0.

(** The part of [absfs.Filer] (and of [absfs.File]) that [MkdirAll] and
    [RemoveAll] use.  [FS] is the state of the backing filesystem, [File]
    its open handles.  [fs_RemoveAller] is [Some] when the backing
    filesystem also implements the optional [RemoveAller] interface. *)
Record Filer (E FS File : Type) := mkFiler {
  fs_OpenFile : string -> Z -> Z -> FS -> result E File * FS;
  fs_Mkdir : string -> Z -> FS -> option E * FS;
  fs_Remove : string -> FS -> option E * FS;
  fs_Stat : string -> FS -> result E FileInfo * FS;
  file_Readdir : File -> Z -> FS -> result E (list FileInfo) * FS;
  file_Close : File -> FS -> option E * FS;
  fs_RemoveAller : option (string -> FS -> option E * FS)
}.

(** A call made on the backing filesystem, with what it returned. *)
Inductive Call (E File : Type) : Type :=
| CallStat (name : string) (r : result E FileInfo)
| CallOpenFile (name : string) (flag perm : Z) (r : result E File)
| CallReaddir (f : File) (n : Z) (r : result E (list FileInfo))
| CallClose (f : File) (r : option E)
| CallRemove (name : string) (r : option E)
| CallMkdir (name : string) (perm : Z) (r : option E)
| CallRemoveAll (name : string) (r : option E).
Arguments CallStat {E File} name r.
Arguments CallOpenFile {E File} name flag perm r.
Arguments CallReaddir {E File} f n r.
Arguments CallClose {E File} f r.
Arguments CallRemove {E File} name r.
Arguments CallMkdir {E File} name perm r.
Arguments CallRemoveAll {E File} name r.

(* ===================================================================== *)
(** ** The adapter                                                        *)
(* ===================================================================== *)

Section Httpfs.

Context {E FS File : Type} `{ErrorKind E}.

(** [type Httpfs struct { fs absfs.Filer }] *)
Variable fs : Filer E FS File.

Definition Trace := list (Call E File).

(** Computations of the adapter: they thread the state of the backing
    filesystem, collect the calls made, and are [None] only when the
    recursion budget of [RemoveAll] is used up. *)
Definition M (A : Type) : Type := FS -> option (A * FS * Trace).

Definition ret {A} (a : A) : M A := fun s => Some (a, s, []).

Definition bind {A B} (m : M A) (k : A -> M B) : M B :=
  fun s =>
    match m s with
    | None => None
    | Some (a, s1, t1) =>
        match k a s1 with
        | None => None
        | Some (b, s2, t2) => Some (b, s2, t1 ++ t2)
        end
    end.

Definition out_of_fuel {A} : M A := fun _ => None.

Definition call {A} (op : FS -> A * FS) (ev : A -> Call E File) : M A :=
  fun s => let (a, s') := op s in Some (a, s', [ev a]).

Notation "x <- m ;; k" := (bind m (fun x => k))
  (at level 61, m at next level, right associativity).

(** The one-line delegating methods of [Httpfs]. *)
Definition OpenFile (name : string) (flag perm : Z) : M (result E File) :=
  call (fs_OpenFile fs name flag perm) (CallOpenFile name flag perm).

Definition Mkdir (name : string) (perm : Z) : M (option E) :=
  call (fs_Mkdir fs name perm) (CallMkdir name perm).

Definition Remove (name : string) : M (option E) :=
  call (fs_Remove fs name) (CallRemove name).

Definition Stat (name : string) : M (result E FileInfo) :=
  call (fs_Stat fs name) (CallStat name).

Definition Readdir (f : File) (n : Z) : M (result E (list FileInfo)) :=
  call (file_Readdir fs f n) (CallReaddir f n).

Definition Close (f : File) : M (option E) :=
  call (file_Close fs f) (CallClose f).

(** The loop of [MkdirAll] over [strings.Split(name, "/")], with the
    running path [p]. *)
Fixpoint mkdirEach (perm : Z) (p : string) (names : list string)
  : M (option E) :=
  match names with
  | [] => ret None
  | name :: rest =>
      if name =? "" then mkdirEach perm p rest
      else
        let p := GoPath.Join p name in
        err <- Mkdir p perm ;;
        match err with
        | Some e => if negb (IsExist e) then ret (Some e)
                    else mkdirEach perm p rest
        | None => mkdirEach perm p rest
        end
  end.

(** [func (filer *Httpfs) MkdirAll(name string, perm os.FileMode) error] *)
Definition MkdirAll (name : string) (perm : Z) : M (option E) :=
  mkdirEach perm "/" (GoPath.Split name).

(** The [for _, info := range infos] loop of [RemoveAll]; [recurse] is
    the recursive call [filer.RemoveAll]. *)
Fixpoint removeChildren (recurse : string -> M (option E))
    (pathname : string) (infos : list FileInfo) : M (option E) :=
  match infos with
  | [] => ret None
  | info :: rest =>
      let name := Name info in
      if (name =? ".") || (name =? "..") then
        removeChildren recurse pathname rest
      else
        err <- recurse (GoPath.Join pathname name) ;;
        match err with
        | Some e => ret (Some e)
        | None => removeChildren recurse pathname rest
        end
  end.

(** The end of [RemoveAll]: the remove of the directory itself, and the
    re-stat that follows a failure of it. *)
Definition removeDir (pathname : string) : M (option E) :=
  err <- Remove pathname ;;
  match err with
  | Some e =>
      st <- Stat pathname ;;
      if os_IsNotExist (result_err st) then ret None else ret (Some e)
  | None => ret None
  end.

(** [func (filer *Httpfs) RemoveAll(pathname string) error].  Go's
    recursion is bounded here by [fuel], the number of nested calls
    allowed. *)
Fixpoint RemoveAll (fuel : nat) (pathname : string) : M (option E) :=
  match fuel with
  | O => out_of_fuel
  | S fuel' =>
      match fs_RemoveAller fs with
      | Some ra =>
          err <- call (ra pathname) (CallRemoveAll pathname) ;;
          if os_IsNotExist err then ret None else ret err
      | None =>
          st <- Stat pathname ;;
          match st with
          | Err err => if IsNotExist err then ret None else ret (Some err)
          | Ok info =>
              if negb (IsDir info) then Remove pathname
              else
                op <- OpenFile pathname O_RDONLY 0 ;;
                match op with
                | Err err =>
                    if IsNotExist err then ret None else ret (Some err)
                | Ok f =>
                    rd <- Readdir f 0 ;;
                    _ <- Close f ;;
                    match rd with
                    | Err err => ret (Some err)
                    | Ok infos =>
                        err <- removeChildren (RemoveAll fuel') pathname infos ;;
                        match err with
                        | Some e => ret (Some e)
                        | None => removeDir pathname
                        end
                    end
                end
          end
      end
  end.

End Httpfs.

Arguments RemoveAll {E FS File _} fs fuel pathname _.
Arguments MkdirAll {E FS File _} fs name perm _.

(* ===================================================================== *)
(** ** Reading traces                                                     *)
(* ===================================================================== *)

Section Traces.

Context {E File : Type} `{ErrorKind E}.

(** The error a call returned, if it returned one. *)
Definition call_error (c : Call E File) : option E :=
  match c with
  | CallStat _ r => result_err r
  | CallOpenFile _ _ _ r => result_err r
  | CallReaddir _ _ r => result_err r
  | CallClose _ r => r
  | CallRemove _ r => r
  | CallMkdir _ _ r => r
  | CallRemoveAll _ r => r
  end.

(** The path a [Mkdir] call was made on. *)
Definition mkdir_path (c : Call E File) : option string :=
  match c with
  | CallMkdir name _ _ => Some name
  | _ => None
  end.

Definition is_Mkdir (perm : Z) (c : Call E File) : Prop :=
  match c with
  | CallMkdir _ perm' _ => perm' = perm
  | _ => False
  end.

(** A [Mkdir] call that lets [MkdirAll] go on: it succeeded, or failed
    with an already-exists error. *)
Definition mkdir_tolerated (c : Call E File) : bool :=
  match call_error c with
  | Some e => IsExist e
  | None => true
  end.

(** The paths removed, or attempted to be removed, by the calls of a
    trace: every [Remove] and every native [RemoveAll]. *)
Fixpoint removals (tr : list (Call E File)) : list string :=
  match tr with
  | [] => []
  | CallRemove name _ :: tr' => name :: removals tr'
  | CallRemoveAll name _ :: tr' => name :: removals tr'
  | _ :: tr' => removals tr'
  end.

(** Whether a call belongs to the manual walk. *)
Definition is_walk_call (c : Call E File) : bool :=
  match c with
  | CallStat _ _ | CallOpenFile _ _ _ _ | CallReaddir _ _ _
  | CallClose _ _ | CallRemove _ _ => true
  | _ => false
  end.

Variable File_eq_dec : forall f g : File, {f = g} + {f <> g}.

Fixpoint release (f : File) (open : list File) : list File :=
  match open with
  | [] => []
  | g :: rest => if File_eq_dec f g then rest else g :: release f rest
  end.

(** The handles that are open after the calls of a trace, given those
    open before: a successful [OpenFile] adds its handle, a [Close]
    releases it. *)
Fixpoint open_handles (open : list File) (tr : list (Call E File))
  : list File :=
  match tr with
  | [] => open
  | CallOpenFile _ _ _ (Ok f) :: tr' => open_handles (f :: open) tr'
  | CallClose f _ :: tr' => open_handles (release f open) tr'
  | _ :: tr' => open_handles open tr'
  end.

(** A call whose result, if an error, [RemoveAll] turns into success by
    itself: a not-found from [Stat], from [OpenFile] or from the native
    bulk delete; and [Close], whose result is not looked at. *)
Definition swallowed_alone (c : Call E File) : bool :=
  match c with
  | CallStat _ r => match r with Ok _ => true | Err e => IsNotExist e end
  | CallOpenFile _ _ _ r => match r with Ok _ => true | Err e => IsNotExist e end
  | CallRemoveAll _ r => match r with None => true | Some e => IsNotExist e end
  | CallReaddir _ _ r => match r with Ok _ => true | Err _ => false end
  | CallRemove _ r => match r with None => true | Some _ => false end
  | CallClose _ _ => true
  | CallMkdir _ _ _ => false
  end.

(** The same, had the not-found of [OpenFile] not been among them. *)
Definition swallowed_top_only (c : Call E File) : bool :=
  match c with
  | CallOpenFile _ _ _ (Err _) => false
  | _ => swallowed_alone c
  end.

Section Absorbed.

Variable swallowed : Call E File -> bool.

(** Traces in which no error is left standing: every call is swallowed
    alone, or is a failed [Remove] followed at once by a [Stat] of the
    same path that reports not-found. *)
Inductive absorbed : list (Call E File) -> Prop :=
| absorbed_nil : absorbed []
| absorbed_call c tr :
    swallowed c = true -> absorbed tr -> absorbed (c :: tr)
| absorbed_remove name e e' tr :
    IsNotExist e' = true -> absorbed tr ->
    absorbed (CallRemove name (Some e) :: CallStat name (Err e') :: tr).

(** A call after whose failure [RemoveAll] returns at once. *)
Definition is_last_call (c : Call E File) : bool :=
  match c with
  | CallStat _ _ | CallOpenFile _ _ _ _ | CallRemove _ _
  | CallRemoveAll _ _ => true
  | _ => false
  end.

(** How a trace ends when [RemoveAll] returns the error [e]: with the
    call that returned [e], which is one that is not swallowed; with the
    [Readdir] that returned [e] and the [Close] of its handle; or with
    the failed [Remove] that returned [e] and the one [Stat] that did not
    report not-found. *)
Inductive ends_with_error (e : E) : list (Call E File) -> Prop :=
| ends_call c :
    call_error c = Some e -> swallowed c = false -> is_last_call c = true ->
    ends_with_error e [c]
| ends_readdir f n cr :
    ends_with_error e [CallReaddir f n (Err e); CallClose f cr]
| ends_remove name r :
    os_IsNotExist (result_err r) = false ->
    ends_with_error e [CallRemove name (Some e); CallStat name r].

End Absorbed.

End Traces.

(* ===================================================================== *)
(** ** A reference backing filesystem                                     *)
(* ===================================================================== *)

(** Modelled from the spec: the backing filesystem is an external
    collaborator (the tests use absfs/memfs, which is not part of this
    repository), assumed to be a tree of files and directories with
    atomic single-entry create, remove, stat and list operations and
    POSIX-like error reporting.  This module is such a filesystem: an
    in-memory directory tree.  It can list the synthetic [.] and [..]
    entries, and can offer the native bulk delete, as memfs does. *)
Module MemFS.

Inductive Errno : Type :=
| ENOENT
| EEXIST
| ENOTEMPTY
| ENOTDIR
| EINVAL
| EOther (msg : string).

#[global] Instance Errno_kind : ErrorKind Errno := {
  IsNotExist e := match e with ENOENT => true | _ => false end;
  IsExist e := match e with EEXIST => true | _ => false end
}.

Inductive node : Type :=
| File (size : Z)
| Dir (entries : list (string * node)).

Record Config := mkConfig {
  lists_dots : bool;     (* Readdir lists "." and ".." first *)
  has_RemoveAll : bool   (* implements RemoveAller *)
}.

Definition is_dir (t : node) : bool :=
  match t with
  | Dir _ => true
  | File _ => false
  end.

Definition node_size (t : node) : Z :=
  match t with
  | File n => n
  | Dir _ => 0
  end.

Fixpoint find (name : string) (es : list (string * node)) : option node :=
  match es with
  | [] => None
  | (n, t) :: rest => if n =? name then Some t else find name rest
  end.

(** The node at a path, given by its elements from the root. *)
Fixpoint lookup (cs : list string) (t : node) : option node :=
  match cs with
  | [] => Some t
  | c :: cs' =>
      match t with
      | Dir es =>
          match find c es with
          | Some t' => lookup cs' t'
          | None => None
          end
      | File _ => None
      end
  end.

Definition drop (name : string) (es : list (string * node))
  : list (string * node) :=
  filter (fun e => negb (fst e =? name)) es.

Fixpoint update (name : string) (f : node -> node)
    (es : list (string * node)) : list (string * node) :=
  match es with
  | [] => []
  | (n, t) :: rest =>
      if n =? name then (n, f t) :: rest else (n, t) :: update name f rest
  end.

(** The tree without the entry at a path (and so without all below it). *)
Fixpoint delete (cs : list string) (t : node) : node :=
  match cs with
  | [] => t
  | c :: cs' =>
      match t with
      | Dir es =>
          match cs' with
          | [] => Dir (drop c es)
          | _ :: _ => Dir (update c (delete cs') es)
          end
      | File _ => t
      end
  end.

(** The tree with a new last entry in the directory at a path. *)
Fixpoint add (cs : list string) (name : string) (new : node) (t : node)
  : node :=
  match t with
  | File _ => t
  | Dir es =>
      match cs with
      | [] => Dir (es ++ [(name, new)])
      | c :: cs' => Dir (update c (add cs' name new) es)
      end
  end.

(** Paths are resolved from the root, lexically, as [path.Clean] does for
    a rooted path. *)
Definition resolve (p : string) : list string :=
  GoPath.clean_elems true p.

Definition base (cs : list string) : string := last cs "/".

Definition info_of (name : string) (t : node) : FileInfo :=
  {| Name := name; Size := node_size t; Mode := 0; ModTime := 0;
     IsDir := is_dir t |}.

Definition dot_infos : list FileInfo :=
  [info_of "." (Dir []); info_of ".." (Dir [])].

Definition listing (cfg : Config) (es : list (string * node))
  : list FileInfo :=
  (if lists_dots cfg then dot_infos else [])
    ++ map (fun e => info_of (fst e) (snd e)) es.

Definition Stat (p : string) (s : node) : result Errno FileInfo * node :=
  match lookup (resolve p) s with
  | Some t => (Ok (info_of (base (resolve p)) t), s)
  | None => (Err ENOENT, s)
  end.

(** Handles are the resolved path that was opened. *)
Definition OpenFile (p : string) (flag perm : Z) (s : node)
  : result Errno (list string) * node :=
  match lookup (resolve p) s with
  | Some _ => (Ok (resolve p), s)
  | None => (Err ENOENT, s)
  end.

Definition Readdir (cfg : Config) (h : list string) (n : Z) (s : node)
  : result Errno (list FileInfo) * node :=
  match lookup h s with
  | Some (Dir es) => (Ok (listing cfg es), s)
  | Some (File _) => (Err ENOTDIR, s)
  | None => (Err ENOENT, s)
  end.

Definition Close (h : list string) (s : node) : option Errno * node :=
  (None, s).

(** Removes a file or an empty directory; the root cannot be removed. *)
Definition Remove (p : string) (s : node) : option Errno * node :=
  match resolve p with
  | [] => (Some EINVAL, s)
  | cs =>
      match lookup cs s with
      | None => (Some ENOENT, s)
      | Some (Dir (_ :: _)) => (Some ENOTEMPTY, s)
      | Some _ => (None, delete cs s)
      end
  end.

Definition Mkdir (p : string) (perm : Z) (s : node) : option Errno * node :=
  match lookup (resolve p) s with
  | Some _ => (Some EEXIST, s)
  | None =>
      let parent := removelast (resolve p) in
      match lookup parent s with
      | Some (Dir _) => (None, add parent (base (resolve p)) (Dir []) s)
      | Some (File _) => (Some ENOTDIR, s)
      | None => (Some ENOENT, s)
      end
  end.

(** The native bulk delete; like that of memfs it reports a path that
    does not exist as an error. *)
Definition NativeRemoveAll (p : string) (s : node) : option Errno * node :=
  match resolve p with
  | [] => (Some EINVAL, s)
  | cs =>
      match lookup cs s with
      | None => (Some ENOENT, s)
      | Some _ => (None, delete cs s)
      end
  end.

Definition filer (cfg : Config) : Filer Errno node (list string) :=
  {| fs_OpenFile := OpenFile;
     fs_Mkdir := Mkdir;
     fs_Remove := Remove;
     fs_Stat := Stat;
     file_Readdir := Readdir cfg;
     file_Close := Close;
     fs_RemoveAller :=
       if has_RemoveAll cfg then Some NativeRemoveAll else None |}.

(** A name that a directory entry can have. *)
Definition valid_name (name : string) : bool :=
  negb (name =? "") && negb (name =? ".") && negb (name =? "..")
  && forallb (fun c => negb (Ascii.eqb c "/")) (list_ascii_of_string name).

(** Well-formed trees: in every directory the names are valid and no two
    entries share one. *)
Inductive wf : node -> Prop :=
| wf_File n : wf (File n)
| wf_Dir es :
    NoDup (map fst es) ->
    Forall (fun e => valid_name (fst e) = true /\ wf (snd e)) es ->
    wf (Dir es).

(** A chain of directories [names] deep with one file at the bottom. *)
Fixpoint chain (names : list string) (file : string) : node :=
  match names with
  | [] => Dir [(file, File 0)]
  | n :: rest => Dir [(n, chain rest file)]
  end.

End MemFS.

(* ===================================================================== *)
(** ** The wrappers the tests put around the backing filesystem           *)
(* ===================================================================== *)

Section Wrappers.

Context {E FS File : Type}.
Variable inner : Filer E FS File.

(** [noRemoveAllFS]: hides the [RemoveAll] method of the wrapped
    filesystem, which forces the manual walk. *)
Definition noRemoveAllFS : Filer E FS File :=
  {| fs_OpenFile := fs_OpenFile inner;
     fs_Mkdir := fs_Mkdir inner;
     fs_Remove := fs_Remove inner;
     fs_Stat := fs_Stat inner;
     file_Readdir := file_Readdir inner;
     file_Close := file_Close inner;
     fs_RemoveAller := None |}.

(** [errorFS]: [Stat], [OpenFile] and [Remove] return the injected
    error when there is one. *)
Definition errorFS (statErr openFileErr removeErr : option E)
  : Filer E FS File :=
  {| fs_OpenFile name flag perm s :=
       match openFileErr with
       | Some e => (Err e, s)
       | None => fs_OpenFile inner name flag perm s
       end;
     fs_Mkdir := fs_Mkdir inner;
     fs_Remove name s :=
       match removeErr with
       | Some e => (Some e, s)
       | None => fs_Remove inner name s
       end;
     fs_Stat name s :=
       match statErr with
       | Some e => (Err e, s)
       | None => fs_Stat inner name s
       end;
     file_Readdir := file_Readdir inner;
     file_Close := file_Close inner;
     fs_RemoveAller := None |}.

(** [readdirErrorFS]: the files it opens fail in [Readdir] with the
    injected error. *)
Definition readdirErrorFS (readdirErr : option E) : Filer E FS File :=
  {| fs_OpenFile := fs_OpenFile inner;
     fs_Mkdir := fs_Mkdir inner;
     fs_Remove := fs_Remove inner;
     fs_Stat := fs_Stat inner;
     file_Readdir f n s :=
       match readdirErr with
       | Some e => (Err e, s)
       | None => file_Readdir inner f n s
       end;
     file_Close := file_Close inner;
     fs_RemoveAller := None |}.

(** [conditionalErrorFS]: [Remove] is [removeFunc]. *)
Definition conditionalErrorFS (removeFunc : string -> FS -> option E * FS)
  : Filer E FS File :=
  {| fs_OpenFile := fs_OpenFile inner;
     fs_Mkdir := fs_Mkdir inner;
     fs_Remove := removeFunc;
     fs_Stat := fs_Stat inner;
     file_Readdir := file_Readdir inner;
     file_Close := file_Close inner;
     fs_RemoveAller := None |}.

End Wrappers.

(* ===================================================================== *)
(** ** The filesystems of the tests                                       *)
(* ===================================================================== *)

Module Tests.

Import MemFS.

(** memfs as it is, and behind [noRemoveAllFS]. *)
Definition native : Config := mkConfig true true.
Definition manual : Config := mkConfig true false.

(** [TestRemoveAllOnFile]: the file [/test.txt]. *)
Definition one_file : node := Dir [("test.txt", File 0)].

(** [TestRemoveAllOpenFileError] and the like: the directory
    [/testdir]. *)
Definition one_dir : node := Dir [("testdir", Dir [])].

(** [TestRemoveAllRecursiveError]: [/parent/child/file.txt]; here with
    one more entry of [/parent], listed after [child]. *)
Definition nested : node :=
  Dir [("parent", Dir [("child", Dir [("file.txt", File 0)]);
                       ("sibling", File 0)])].

Definition removeErr : Errno := EOther "remove error".
Definition readdirErr : Errno := EOther "readdir error".

(** [TestRemoveAllRecursiveError]: [Remove] fails on the file. *)
Definition failing_remove : Filer Errno node (list string) :=
  conditionalErrorFS (filer manual)
    (fun name s =>
       if name =? "/parent/child/file.txt" then (Some removeErr, s)
       else Remove name s).

(** The filesystems the comment in [RemoveAll] speaks of: [Remove] of
    a directory reports that it is not empty; this one has removed it
    all the same. *)
Definition grumbling_remove : Filer Errno node (list string) :=
  conditionalErrorFS (filer manual)
    (fun name s =>
       match lookup (resolve name) s, Remove name s with
       | Some (Dir _), (None, s') => (Some ENOTEMPTY, s')
       | _, r => r
       end).

(** [TestRemoveAllOpenFileNotExistError]. *)
Definition open_not_exist : Filer Errno node (list string) :=
  errorFS (noRemoveAllFS (filer native)) None (Some ENOENT) None.

(** [TestRemoveAllReaddirError]. *)
Definition failing_readdir : Filer Errno node (list string) :=
  readdirErrorFS (noRemoveAllFS (filer native)) (Some readdirErr).

Definition handle_eq_dec : forall f g : list string, {f = g} + {f <> g} :=
  list_eq_dec string_dec.

End Tests.

(* ===================================================================== *)
(** ** Vocabulary of the statements                                      *)
(* ===================================================================== *)

(** A tree [t] is removable when [RemoveAll], on the reference
    filesystem, removes it from wherever it is found: called on a path
    that resolves to [t], other than the root, it returns nil and leaves
    the filesystem without that entry. *)
Definition removable (cfg : MemFS.Config) (t : MemFS.node) : Prop :=
  forall root p,
    MemFS.wf root -> MemFS.resolve p <> [] ->
    MemFS.lookup (MemFS.resolve p) root = Some t ->
    exists fuel tr,
      RemoveAll (MemFS.filer cfg) fuel p root
      = Some (None, MemFS.delete (MemFS.resolve p) root, tr).

(** The filesystem of the deep-nesting test: [/a/b/c/d/e/f/g/h/i/j],
    ten directories deep, with [file.txt] at the bottom. *)
Definition ten_levels : MemFS.node :=
  MemFS.Dir
    [("a", MemFS.chain ["b"; "c"; "d"; "e"; "f"; "g"; "h"; "i"; "j"]
             "file.txt")].

Definition ten_level_paths : list string :=
  ["/a"; "/a/b"; "/a/b/c"; "/a/b/c/d"; "/a/b/c/d/e"; "/a/b/c/d/e/f";
   "/a/b/c/d/e/f/g"; "/a/b/c/d/e/f/g/h"; "/a/b/c/d/e/f/g/h/i";
   "/a/b/c/d/e/f/g/h/i/j"; "/a/b/c/d/e/f/g/h/i/j/file.txt"].

Section Vocabulary.

Context {E FS File : Type} `{ErrorKind E}.
Variable fs : Filer E FS File.


(** In the manual walk, [p] is found to be a directory in state [s], is
    opened, listed and closed: the listing is [infos], the state after
    the close is [s'] and the calls made are [tr]. *)
Definition lists_dir (p : string) (s : FS) (infos : list FileInfo)
    (s' : FS) (tr : list (Call E File)) : Prop :=
  fs_RemoveAller fs = None /\
  exists info s1 f s2 s3 cr,
    fs_Stat fs p s = (Ok info, s1) /\ IsDir info = true /\
    fs_OpenFile fs p O_RDONLY 0 s1 = (Ok f, s2) /\
    file_Readdir fs f 0 s2 = (Ok infos, s3) /\
    file_Close fs f s3 = (cr, s') /\
    tr = [CallStat p (Ok info); CallOpenFile p O_RDONLY 0 (Ok f);
          CallReaddir f 0 (Ok infos); CallClose f cr].

(** The listed entries that the loop of [RemoveAll] passes over. *)
Definition skipped (info : FileInfo) : bool :=
  (Name info =? ".") || (Name info =? "..").

(** The loop over the listing of [p], from state [s]: it returns [r] in
    state [s'] after the calls [tr]. *)
Inductive children_at (recurse : string -> @M E FS File (option E))
    (p : string)
  : list FileInfo -> FS -> option E -> FS -> list (Call E File) -> Prop :=
| children_done s :
    children_at recurse p [] s None s []
| children_skip c rest s r s' tr :
    skipped c = true ->
    children_at recurse p rest s r s' tr ->
    children_at recurse p (c :: rest) s r s' tr
| children_fail c rest s e s1 tr1 :
    skipped c = false ->
    recurse (GoPath.Join p (Name c)) s = Some (Some e, s1, tr1) ->
    children_at recurse p (c :: rest) s (Some e) s1 tr1
| children_next c rest s s1 tr1 r s2 tr2 :
    skipped c = false ->
    recurse (GoPath.Join p (Name c)) s = Some (None, s1, tr1) ->
    children_at recurse p rest s1 r s2 tr2 ->
    children_at recurse p (c :: rest) s r s2 (tr1 ++ tr2).

(** The ways in which a call of [RemoveAll] on [p] in state [s] returns,
    one for each [return] of the Go function: the result, the state
    left and the calls made.  [recurse] is the recursive call. *)
Inductive returns_at (recurse : string -> @M E FS File (option E))
    (p : string) (s : FS)
  : option E -> FS -> list (Call E File) -> Prop :=
| return_native ra err s' :
    fs_RemoveAller fs = Some ra -> ra p s = (err, s') ->
    returns_at recurse p s (if os_IsNotExist err then None else err) s'
      [CallRemoveAll p err]
| return_stat e s' :
    fs_RemoveAller fs = None -> fs_Stat fs p s = (Err e, s') ->
    returns_at recurse p s (if IsNotExist e then None else Some e) s'
      [CallStat p (Err e)]
| return_file info s1 r s2 :
    fs_RemoveAller fs = None ->
    fs_Stat fs p s = (Ok info, s1) -> IsDir info = false ->
    fs_Remove fs p s1 = (r, s2) ->
    returns_at recurse p s r s2 [CallStat p (Ok info); CallRemove p r]
| return_open info s1 e s2 :
    fs_RemoveAller fs = None ->
    fs_Stat fs p s = (Ok info, s1) -> IsDir info = true ->
    fs_OpenFile fs p O_RDONLY 0 s1 = (Err e, s2) ->
    returns_at recurse p s (if IsNotExist e then None else Some e) s2
      [CallStat p (Ok info); CallOpenFile p O_RDONLY 0 (Err e)]
| return_readdir info s1 f s2 e s3 cr s4 :
    fs_RemoveAller fs = None ->
    fs_Stat fs p s = (Ok info, s1) -> IsDir info = true ->
    fs_OpenFile fs p O_RDONLY 0 s1 = (Ok f, s2) ->
    file_Readdir fs f 0 s2 = (Err e, s3) ->
    file_Close fs f s3 = (cr, s4) ->
    returns_at recurse p s (Some e) s4
      [CallStat p (Ok info); CallOpenFile p O_RDONLY 0 (Ok f);
       CallReaddir f 0 (Err e); CallClose f cr]
| return_child infos s0 tr0 e s1 tr1 :
    lists_dir p s infos s0 tr0 ->
    children_at recurse p infos s0 (Some e) s1 tr1 ->
    returns_at recurse p s (Some e) s1 (tr0 ++ tr1)
| return_removed infos s0 tr0 s1 tr1 s2 :
    lists_dir p s infos s0 tr0 ->
    children_at recurse p infos s0 None s1 tr1 ->
    fs_Remove fs p s1 = (None, s2) ->
    returns_at recurse p s None s2 (tr0 ++ tr1 ++ [CallRemove p None])
| return_restat infos s0 tr0 s1 tr1 e s2 st s3 :
    lists_dir p s infos s0 tr0 ->
    children_at recurse p infos s0 None s1 tr1 ->
    fs_Remove fs p s1 = (Some e, s2) ->
    fs_Stat fs p s2 = (st, s3) ->
    returns_at recurse p s
      (if os_IsNotExist (result_err st) then None else Some e) s3
      (tr0 ++ tr1 ++ [CallRemove p (Some e); CallStat p st]).

(** What is claimed of the errors met in a run that returned [r] after
    the calls [tr]: with [swallowed] telling which single calls may fail
    without the run failing. *)
Definition errors_accounted (swallowed : Call E File -> bool)
    (r : option E) (tr : list (Call E File)) : Prop :=
  match r with
  | None => absorbed swallowed tr
  | Some e =>
      exists tr0 tl,
        tr = tr0 ++ tl /\ absorbed swallowed tr0 /\
        ends_with_error swallowed e tl
  end.

End Vocabulary.

Section MkdirVocabulary.

Import GoPath.

(** The non-empty elements of a path, in order. *)
Definition elements (name : string) : list string :=
  filter (fun x => negb (x =? "")) (Split name).

(** The successive values of the running path [p] of [MkdirAll]. *)
Fixpoint running_paths (p : string) (elems : list string) : list string :=
  match elems with
  | [] => []
  | x :: rest => let p' := Join p x in p' :: running_paths p' rest
  end.

Definition mkdir_targets (name : string) : list string :=
  running_paths "/" (elements name).

(** The non-empty slash-separated prefixes of a path, shortest first:
    ["/a"], ["/a/b"], ... for ["/a/b/..."]. *)
Fixpoint prefixes_from (p : string) (elems : list string) : list string :=
  match elems with
  | [] => []
  | x :: rest => let p' := (p ++ "/" ++ x)%string in p' :: prefixes_from p' rest
  end.

Definition prefixes (name : string) : list string :=
  prefixes_from "" (elements name).

(** A path element that [path.Clean] keeps as it is. *)
Definition plain (x : string) : bool :=
  negb (x =? ".") && negb (x =? "..").

Definition mkdir_paths {E File} (tr : list (Call E File)) : list string :=
  flat_map (fun c => match mkdir_path c with Some p => [p] | None => [] end) tr.

(** What [MkdirAll] returns and the calls it has made, for the paths
    [targets] it is to make: only [Mkdir] calls, on the targets in
    order; on nil, one call on each target, all tolerated; on an error,
    the calls stop with the one that returned it, which is not an
    already-exists error, all calls before it being tolerated. *)
Definition mkdir_outcome {E File} `{ErrorKind E} (perm : Z)
    (targets : list string) (r : option E) (tr : list (Call E File))
  : Prop :=
  Forall (is_Mkdir perm) tr /\
  match r with
  | None => mkdir_paths tr = targets /\ forallb mkdir_tolerated tr = true
  | Some e =>
      exists tr0 q rest,
        tr = tr0 ++ [CallMkdir q perm (Some e)] /\ IsExist e = false /\
        forallb mkdir_tolerated tr0 = true /\
        targets = mkdir_paths tr ++ rest
  end.

Definition count_Remove {E File} (p : string) (tr : list (Call E File)) : nat :=
  length (filter (fun c => match c with
                           | CallRemove name _ => name =? p
                           | _ => false
                           end) tr).

End MkdirVocabulary.

(* ===================================================================== *)
(** ** Further vocabulary: where the calls go, and what [Mkdir] keeps     *)
(* ===================================================================== *)

Section Reach.

Context {E File : Type}.

(** The path a call names, for the calls that name one. *)
Definition call_path (c : Call E File) : option string :=
  match c with
  | CallStat name _ | CallOpenFile name _ _ _ | CallRemove name _
  | CallMkdir name _ _ | CallRemoveAll name _ => Some name
  | CallReaddir _ _ _ | CallClose _ _ => None
  end.

(** The paths named by the calls of a trace, in order. *)
Definition touched (tr : list (Call E File)) : list string :=
  flat_map (fun c => match call_path c with Some p => [p] | None => [] end) tr.

(** The entry names listed by the successful [Readdir] calls of a
    trace. *)
Definition listed_names (tr : list (Call E File)) : list string :=
  flat_map (fun c => match c with
                     | CallReaddir _ _ (Ok infos) => map Name infos
                     | _ => []
                     end) tr.

(** The calls of the manual walk, as [RemoveAll] makes them: [Stat],
    [Remove] and [Close]; [OpenFile] read-only with no permission bits;
    [Readdir] of the whole directory. *)
Definition walk_discipline (c : Call E File) : bool :=
  match c with
  | CallStat _ _ | CallRemove _ _ | CallClose _ _ => true
  | CallOpenFile _ flag perm _ => Z.eqb flag O_RDONLY && Z.eqb perm 0
  | CallReaddir _ n _ => Z.eqb n 0
  | CallMkdir _ _ _ | CallRemoveAll _ _ => false
  end.

(** A call that failed with an already-exists error. *)
Definition failed_exists `{ErrorKind E} (c : Call E File) : bool :=
  match call_error c with
  | Some e => IsExist e
  | None => false
  end.

End Reach.

(** A name made of slashes only, the empty name among them. *)
Definition only_slashes (name : string) : bool :=
  forallb (fun c => Ascii.eqb c "/") (list_ascii_of_string name).

(** An entry name as a directory lists it: not empty, and one path
    element. *)
Definition entry_name (n : string) : Prop :=
  (n =? "") = false /\ GoPath.noslash n.

(** [q] is [p] or a path below [p], both resolved from the root. *)
Definition under (p q : string) : Prop :=
  exists rest,
    GoPath.clean_elems true q = GoPath.clean_elems true p ++ rest.

Section MkdirConventions.

Context {E FS File : Type} `{ErrorKind E}.
Variable fs : Filer E FS File.

(** What [MkdirAll] needs of [Mkdir], for a notion [present] of a path
    being there: a path made, or found to exist already, is present; a
    path present stays so when another is made; and [Mkdir] of a path
    present fails with an already-exists error and changes nothing. *)
Record mkdir_conventional (present : string -> FS -> Prop) : Prop := {
  mkdir_makes : forall q perm s r s',
    fs_Mkdir fs q perm s = (r, s') ->
    mkdir_tolerated (CallMkdir (File := File) q perm r) = true ->
    present q s';
  mkdir_keeps : forall x q perm s r s',
    present x s -> fs_Mkdir fs q perm s = (r, s') -> present x s';
  mkdir_exists : forall q perm s,
    present q s ->
    exists e, fs_Mkdir fs q perm s = (Some e, s) /\ IsExist e = true
}.

End MkdirConventions.

(** The depth of a tree of the reference filesystem: a file has depth
    0, a directory one more than its deepest entry. *)
Fixpoint height (t : MemFS.node) : nat :=
  match t with
  | MemFS.File _ => 0
  | MemFS.Dir es => S (fold_right (fun e h => Nat.max (height (snd e)) h) 0 es)
  end.

(** The directories [cs], each the only entry of the one before. *)
Fixpoint spine (cs : list string) : MemFS.node :=
  match cs with
  | [] => MemFS.Dir []
  | c :: rest => MemFS.Dir [(c, spine rest)]
  end.

(** A path is present in a tree of the reference filesystem. *)
Definition present_in (p : string) (s : MemFS.node) : Prop :=
  MemFS.lookup (MemFS.resolve p) s <> None.

(* ===================================================================== *)
(** ** Running the adapter: equations                                     *)
(* ===================================================================== *)

Unset Implicit Arguments.

Section Computations.

Context {E FS File : Type}.

Local Abbreviation M := (@M E FS File).

Lemma bind_inv A B (m : M A) (k : A -> M B) s b s2 t :
  bind m k s = Some (b, s2, t) ->
  exists a s1 t1 t2,
    m s = Some (a, s1, t1) /\ k a s1 = Some (b, s2, t2) /\ t = t1 ++ t2.
Proof.
  unfold bind. destruct (m s) as [[[a s1] t1]|] eqn:Hm; [|discriminate].
  destruct (k a s1) as [[[b' s2'] t2]|] eqn:Hk; [|discriminate].
  intros Heq. inversion Heq; subst. exists a, s1, t1, t2. auto.
Qed.

Lemma bind_eq A B (m : M A) (k : A -> M B) s a s1 t1 :
  m s = Some (a, s1, t1) ->
  bind m k s = match k a s1 with
               | None => None
               | Some (b, s2, t2) => Some (b, s2, t1 ++ t2)
               end.
Proof. unfold bind. intros ->. reflexivity. Qed.

Lemma call_eq A (op : FS -> A * FS) (ev : A -> Call E File) s a s' :
  op s = (a, s') -> call op ev s = Some (a, s', [ev a]).
Proof. unfold call. intros ->. reflexivity. Qed.

End Computations.

(** Runs the next call of a computation, given what the backing
    filesystem answers. *)
Ltac run_call Hcall :=
  erewrite bind_eq by (eapply call_eq; exact Hcall); cbv beta iota.

Section Equations.

Context {E FS File : Type} `{ErrorKind E}.
Variable fs : Filer E FS File.

Local Abbreviation M := (@M E FS File).

Lemma removeDir_eq p s r s1 :
  fs_Remove fs p s = (r, s1) ->
  removeDir fs p s =
    match r with
    | None => Some (None, s1, [CallRemove p None])
    | Some e =>
        let (st, s2) := fs_Stat fs p s1 in
        Some (if os_IsNotExist (result_err st) then None else Some e, s2,
              [CallRemove p (Some e); CallStat p st])
    end.
Proof.
  intros Hr. unfold removeDir, Remove. run_call Hr.
  destruct r as [e|]; [|reflexivity].
  unfold Stat. destruct (fs_Stat fs p s1) as [st s2] eqn:Hst. run_call Hst.
  destruct (os_IsNotExist (result_err st)); reflexivity.
Qed.

(** The loop returns exactly in the ways [children_at] lists. *)
Lemma removeChildren_inv (recurse : string -> M (option E)) p infos :
  forall s r s' tr,
    removeChildren recurse p infos s = Some (r, s', tr) ->
    children_at recurse p infos s r s' tr.
Proof.
  induction infos as [|c rest IH]; intros s r s' tr; simpl.
  - unfold ret. intros Heq. inversion Heq; subst. constructor.
  - destruct ((Name c =? ".") || (Name c =? "..")) eqn:Hskip.
    + intros Hrun. apply children_skip; auto.
    + intros Hrun. apply bind_inv in Hrun.
      destruct Hrun as (err & s1 & t1 & t2 & Hrec & Hk & ->).
      destruct err as [e|].
      * unfold ret in Hk. inversion Hk; subst. rewrite app_nil_r.
        apply children_fail; auto.
      * apply children_next with (s1 := s1); auto.
Qed.

Lemma removeChildren_returns (recurse : string -> M (option E)) p infos
    s r s' tr :
  children_at recurse p infos s r s' tr ->
  removeChildren recurse p infos s = Some (r, s', tr).
Proof.
  induction 1 as [s|c rest s r s' tr Hskip _ IH|c rest s e s1 tr1 Hskip Hrec
                  |c rest s s1 tr1 r s2 tr2 Hskip Hrec _ IH]; simpl.
  - reflexivity.
  - unfold skipped in Hskip. rewrite Hskip. exact IH.
  - unfold skipped in Hskip. rewrite Hskip.
    erewrite bind_eq by exact Hrec. unfold ret. rewrite app_nil_r.
    reflexivity.
  - unfold skipped in Hskip. rewrite Hskip.
    erewrite bind_eq by exact Hrec. cbv beta iota. rewrite IH. reflexivity.
Qed.

(** The loop splits at any entry of the listing. *)
Lemma removeChildren_app (recurse : string -> M (option E)) p pre post
    s s1 tr1 :
  removeChildren recurse p pre s = Some (None, s1, tr1) ->
  removeChildren recurse p (pre ++ post) s =
    match removeChildren recurse p post s1 with
    | None => None
    | Some (r, s2, tr2) => Some (r, s2, tr1 ++ tr2)
    end.
Proof.
  revert s s1 tr1. induction pre as [|c pre IH]; intros s s1 tr1; simpl.
  - unfold ret. intros Heq. inversion Heq; subst.
    destruct (removeChildren recurse p post s1) as [[[r s2] tr2]|];
      reflexivity.
  - destruct ((Name c =? ".") || (Name c =? "..")); [apply IH|].
    intros Hb. apply bind_inv in Hb.
    destruct Hb as (err & s0 & t1 & t2 & Hrec & Hk & ->).
    erewrite bind_eq by exact Hrec.
    destruct err as [e|].
    + unfold ret in Hk. inversion Hk.
    + rewrite (IH _ _ _ Hk).
      destruct (removeChildren recurse p post s1) as [[[r s2] tr2]|];
        [rewrite app_assoc|]; reflexivity.
Qed.

(** One level of the recursion of [RemoveAll], when there is no native
    bulk delete. *)
Lemma RemoveAll_walk fuel p s :
  fs_RemoveAller fs = None ->
  RemoveAll fs (S fuel) p s =
    bind (Stat fs p) (fun st =>
      match st with
      | Err err => if IsNotExist err then ret None else ret (Some err)
      | Ok info =>
          if negb (IsDir info) then Remove fs p
          else
            bind (OpenFile fs p O_RDONLY 0) (fun op =>
              match op with
              | Err err => if IsNotExist err then ret None else ret (Some err)
              | Ok f =>
                  bind (Readdir fs f 0) (fun rd =>
                    bind (Close fs f) (fun _ =>
                      match rd with
                      | Err err => ret (Some err)
                      | Ok infos =>
                          bind (removeChildren (RemoveAll fs fuel) p infos)
                            (fun err =>
                               match err with
                               | Some e => ret (Some e)
                               | None => removeDir fs p
                               end)
                      end))
              end)
      end) s.
Proof. intros Hnat. simpl. rewrite Hnat. reflexivity. Qed.

(** What [RemoveAll] does once the directory is listed. *)
Lemma RemoveAll_dir fuel p s infos s0 tr0 :
  lists_dir fs p s infos s0 tr0 ->
  RemoveAll fs (S fuel) p s =
    match removeChildren (RemoveAll fs fuel) p infos s0 with
    | None => None
    | Some (Some e, s1, tr1) => Some (Some e, s1, tr0 ++ tr1)
    | Some (None, s1, tr1) =>
        match removeDir fs p s1 with
        | None => None
        | Some (r, s2, tr2) => Some (r, s2, tr0 ++ tr1 ++ tr2)
        end
    end.
Proof.
  intros [Hnat (info & s1 & f & s2 & s3 & cr & Hst & Hdir & Hop & Hrd & Hcl & ->)].
  rewrite (RemoveAll_walk _ _ _ Hnat). unfold Stat, OpenFile, Readdir, Close.
  run_call Hst. rewrite Hdir. simpl (negb true). cbv iota.
  run_call Hop. run_call Hrd. run_call Hcl.
  unfold bind at 1.
  destruct (removeChildren (RemoveAll fs fuel) p infos s0)
    as [[[[e|] s1'] tr1]|]; [| |reflexivity].
  - unfold ret. simpl. rewrite app_nil_r. reflexivity.
  - destruct (removeDir fs p s1') as [[[r s2'] tr2]|]; reflexivity.
Qed.

(** Every way of returning listed by [returns_at] is one in which
    [RemoveAll] returns. *)
Lemma RemoveAll_returns fuel p s r s' tr :
  returns_at fs (RemoveAll fs fuel) p s r s' tr ->
  RemoveAll fs (S fuel) p s = Some (r, s', tr).
Proof.
  intros Hret.
  destruct Hret as [ra err s' Hnat Hra
                   |e s' Hnat Hst
                   |info s1 r s2 Hnat Hst Hdir Hrm
                   |info s1 e s2 Hnat Hst Hdir Hop
                   |info s1 f s2 e s3 cr s4 Hnat Hst Hdir Hop Hrd Hcl
                   |infos s0 tr0 e s1 tr1 Hls Hch
                   |infos s0 tr0 s1 tr1 s2 Hls Hch Hrm
                   |infos s0 tr0 s1 tr1 e s2 st s3 Hls Hch Hrm Hst].
  - simpl. rewrite Hnat. run_call Hra.
    destruct (os_IsNotExist err); reflexivity.
  - rewrite (RemoveAll_walk _ _ _ Hnat). unfold Stat. run_call Hst.
    destruct (IsNotExist e); reflexivity.
  - rewrite (RemoveAll_walk _ _ _ Hnat). unfold Stat. run_call Hst.
    rewrite Hdir. simpl (negb false). cbv iota.
    unfold Remove. erewrite call_eq by exact Hrm. reflexivity.
  - rewrite (RemoveAll_walk _ _ _ Hnat). unfold Stat, OpenFile.
    run_call Hst. rewrite Hdir. simpl (negb true). cbv iota.
    run_call Hop. destruct (IsNotExist e); reflexivity.
  - rewrite (RemoveAll_walk _ _ _ Hnat).
    unfold Stat, OpenFile, Readdir, Close.
    run_call Hst. rewrite Hdir. simpl (negb true). cbv iota.
    run_call Hop. run_call Hrd. run_call Hcl. reflexivity.
  - rewrite (RemoveAll_dir _ _ _ _ _ _ Hls).
    rewrite (removeChildren_returns _ _ _ _ _ _ _ Hch). reflexivity.
  - rewrite (RemoveAll_dir _ _ _ _ _ _ Hls).
    rewrite (removeChildren_returns _ _ _ _ _ _ _ Hch).
    rewrite (removeDir_eq _ _ _ _ Hrm). reflexivity.
  - rewrite (RemoveAll_dir _ _ _ _ _ _ Hls).
    rewrite (removeChildren_returns _ _ _ _ _ _ _ Hch).
    rewrite (removeDir_eq _ _ _ _ Hrm). rewrite Hst. reflexivity.
Qed.

(** And [RemoveAll] returns in no other way. *)
Lemma RemoveAll_inv fuel p s r s' tr :
  RemoveAll fs (S fuel) p s = Some (r, s', tr) ->
  returns_at fs (RemoveAll fs fuel) p s r s' tr.
Proof.
  intros Hrun.
  assert (Hdone : forall r0 s0 tr0,
             returns_at fs (RemoveAll fs fuel) p s r0 s0 tr0 ->
             returns_at fs (RemoveAll fs fuel) p s r s' tr).
  { intros r0 s0 tr0 Hret. pose proof (RemoveAll_returns _ _ _ _ _ _ Hret) as Heq.
    rewrite Hrun in Heq. inversion Heq; subst. exact Hret. }
  destruct (fs_RemoveAller fs) as [ra|] eqn:Hnat.
  { destruct (ra p s) as [err s1] eqn:Hra.
    eapply Hdone, return_native; eauto. }
  destruct (fs_Stat fs p s) as [[info|e] s1] eqn:Hst;
    [|eapply Hdone, return_stat; eauto].
  destruct (IsDir info) eqn:Hdir.
  2:{ destruct (fs_Remove fs p s1) as [rr s2] eqn:Hrm.
      eapply Hdone, return_file; eauto. }
  destruct (fs_OpenFile fs p O_RDONLY 0 s1) as [[f|e] s2] eqn:Hop;
    [|eapply Hdone, return_open; eauto].
  destruct (file_Readdir fs f 0 s2) as [[infos|e] s3] eqn:Hrd;
    destruct (file_Close fs f s3) as [cr s4] eqn:Hcl;
    [|eapply Hdone, return_readdir; eauto].
  assert (Hls : lists_dir fs p s infos s4
                  [CallStat p (Ok info); CallOpenFile p O_RDONLY 0 (Ok f);
                   CallReaddir f 0 (Ok infos); CallClose f cr]).
  { split; [exact Hnat|]. exists info, s1, f, s2, s3, cr. auto 10. }
  destruct (removeChildren (RemoveAll fs fuel) p infos s4)
    as [[[[e|] sc] trc]|] eqn:Hch.
  - apply removeChildren_inv in Hch. eapply Hdone, return_child; eauto.
  - apply removeChildren_inv in Hch.
    destruct (fs_Remove fs p sc) as [[e|] s5] eqn:Hrm.
    + destruct (fs_Stat fs p s5) as [st s6] eqn:Hst2.
      eapply Hdone, return_restat; eauto.
    + eapply Hdone, return_removed; eauto.
  - rewrite (RemoveAll_dir _ _ _ _ _ _ Hls), Hch in Hrun. discriminate.
Qed.

(** More fuel changes nothing to a call that returns. *)
Lemma removeChildren_mono (rec1 rec2 : string -> M (option E)) p infos :
  (forall q s x, rec1 q s = Some x -> rec2 q s = Some x) ->
  forall s x,
    removeChildren rec1 p infos s = Some x ->
    removeChildren rec2 p infos s = Some x.
Proof.
  intros Hrec. induction infos as [|c rest IH]; intros s x; simpl; [auto|].
  destruct ((Name c =? ".") || (Name c =? "..")); [apply IH|].
  destruct x as [[r s'] tr]. intros Hrun. apply bind_inv in Hrun.
  destruct Hrun as (err & s1 & t1 & t2 & Hc & Hk & ->).
  erewrite bind_eq by (apply Hrec; exact Hc).
  destruct err as [e|].
  - rewrite Hk. reflexivity.
  - rewrite (IH _ _ Hk). reflexivity.
Qed.

Lemma RemoveAll_S fuel :
  forall p s x, RemoveAll fs fuel p s = Some x ->
                RemoveAll fs (S fuel) p s = Some x.
Proof.
  induction fuel as [|fuel IH]; intros p s x Hrun; [discriminate|].
  destruct (fs_RemoveAller fs) as [ra|] eqn:Hnat.
  { simpl in *. rewrite Hnat in *. exact Hrun. }
  rewrite (RemoveAll_walk _ _ _ Hnat) in Hrun.
  rewrite (RemoveAll_walk _ _ _ Hnat).
  revert Hrun. unfold bind.
  destruct (Stat fs p s) as [[[[info|e] s1] t1]|]; try exact (fun Hr => Hr).
  destruct (negb (IsDir info)); try exact (fun Hr => Hr).
  destruct (OpenFile fs p O_RDONLY 0 s1) as [[[[f|e] s2] t2]|];
    try exact (fun Hr => Hr).
  destruct (Readdir fs f 0 s2) as [[[[infos|e] s3] t3]|];
    try exact (fun Hr => Hr).
  destruct (Close fs f s3) as [[[cr s4] t4]|]; try exact (fun Hr => Hr).
  destruct (removeChildren (RemoveAll fs fuel) p infos s4)
    as [[[r5 s5] t5]|] eqn:Hch; [|discriminate].
  rewrite (removeChildren_mono _ _ p infos IH _ _ Hch). exact (fun Hr => Hr).
Qed.

Lemma RemoveAll_mono fuel fuel' p s x :
  fuel <= fuel' ->
  RemoveAll fs fuel p s = Some x -> RemoveAll fs fuel' p s = Some x.
Proof.
  induction 1 as [|fuel' _ IH]; [auto|].
  intros Hrun. apply RemoveAll_S. auto.
Qed.

End Equations.

(* ===================================================================== *)
(** ** Traces of [RemoveAll]                                              *)
(* ===================================================================== *)

Section TraceLemmas.

Context {E File : Type} `{ErrorKind E}.
Variable swallowed : Call E File -> bool.

Lemma absorbed_app (a b : list (Call E File)) :
  absorbed swallowed a -> absorbed swallowed b -> absorbed swallowed (a ++ b).
Proof.
  induction 1 as [|c tr Hc _ IH|name e e' tr He' _ IH]; intros Hb; simpl.
  - exact Hb.
  - apply absorbed_call; auto.
  - apply absorbed_remove; auto.
Qed.

Lemma errors_accounted_app (a b : list (Call E File)) r :
  absorbed swallowed a -> errors_accounted swallowed r b ->
  errors_accounted swallowed r (a ++ b).
Proof.
  intros Ha. destruct r as [e|]; simpl.
  - intros (tr0 & tl & -> & Habs & Hend).
    exists (a ++ tr0), tl. rewrite app_assoc.
    auto using absorbed_app.
  - apply absorbed_app; exact Ha.
Qed.

Lemma errors_accounted_last (e : E) (c : Call E File) :
  call_error c = Some e -> swallowed c = false -> is_last_call c = true ->
  errors_accounted swallowed (Some e) [c].
Proof.
  intros. exists [], [c]. repeat split; [constructor|].
  apply ends_call; assumption.
Qed.

Variable File_eq_dec : forall f g : File, {f = g} + {f <> g}.

Lemma open_handles_app (a b : list (Call E File)) : forall open,
  open_handles File_eq_dec open (a ++ b)
  = open_handles File_eq_dec (open_handles File_eq_dec open a) b.
Proof.
  induction a as [|c a IH]; intros open; [reflexivity|].
  destruct c as [n r|n fl pm [f|e]|f n r|f r|n r|n pm r|n r]; simpl; apply IH.
Qed.

End TraceLemmas.

Section Induction.

Context {E FS File : Type} `{ErrorKind E}.
Variable fs : Filer E FS File.

Lemma lists_dir_absorbed p s infos s0 tr0 :
  lists_dir fs p s infos s0 tr0 -> absorbed swallowed_alone tr0.
Proof.
  intros [_ (info & s1 & f & s2 & s3 & cr & _ & _ & _ & _ & _ & ->)].
  repeat (apply absorbed_call; [reflexivity|]). constructor.
Qed.

Lemma children_accounted (recurse : string -> @M E FS File (option E)) p :
  (forall q s r s' tr,
     recurse q s = Some (r, s', tr) -> errors_accounted swallowed_alone r tr) ->
  forall infos s r s' tr,
    children_at recurse p infos s r s' tr ->
    errors_accounted swallowed_alone r tr.
Proof.
  intros Hrec. induction 1 as [s|c rest s r s' tr _ _ IH|c rest s e s1 tr1 _ Hc
                              |c rest s s1 tr1 r s2 tr2 _ Hc _ IH].
  - constructor.
  - exact IH.
  - exact (Hrec _ _ _ _ _ Hc).
  - apply errors_accounted_app; [|exact IH]. exact (Hrec _ _ _ _ _ Hc).
Qed.

(** Every error met by [RemoveAll] is accounted for. *)
Lemma RemoveAll_accounted fuel :
  forall p s r s' tr,
    RemoveAll fs fuel p s = Some (r, s', tr) ->
    errors_accounted swallowed_alone r tr.
Proof.
  induction fuel as [|fuel IH]; intros p s r s' tr Hrun; [discriminate|].
  apply RemoveAll_inv in Hrun.
  destruct Hrun as [ra err s' Hnat Hra
                   |e s' Hnat Hst
                   |info s1 r s2 Hnat Hst Hdir Hrm
                   |info s1 e s2 Hnat Hst Hdir Hop
                   |info s1 f s2 e s3 cr s4 Hnat Hst Hdir Hop Hrd Hcl
                   |infos s0 tr0 e s1 tr1 Hls Hch
                   |infos s0 tr0 s1 tr1 s2 Hls Hch Hrm
                   |infos s0 tr0 s1 tr1 e s2 st s3 Hls Hch Hrm Hst].
  - destruct err as [e|]; simpl.
    + destruct (IsNotExist e) eqn:Hnf.
      * apply absorbed_call; [exact Hnf|constructor].
      * apply errors_accounted_last; auto.
    + apply absorbed_call; [reflexivity|constructor].
  - destruct (IsNotExist e) eqn:Hnf.
    + apply absorbed_call; [exact Hnf|constructor].
    + apply errors_accounted_last; auto.
  - apply (errors_accounted_app _ [CallStat p (Ok info)]).
    { apply absorbed_call; [reflexivity|constructor]. }
    destruct r as [e|].
    + apply errors_accounted_last; auto.
    + apply absorbed_call; [reflexivity|constructor].
  - apply (errors_accounted_app _ [CallStat p (Ok info)]).
    { apply absorbed_call; [reflexivity|constructor]. }
    destruct (IsNotExist e) eqn:Hnf.
    + apply absorbed_call; [exact Hnf|constructor].
    + apply errors_accounted_last; auto.
  - exists [CallStat p (Ok info); CallOpenFile p O_RDONLY 0 (Ok f)],
      [CallReaddir f 0 (Err e); CallClose f cr].
    repeat split.
    + repeat (apply absorbed_call; [reflexivity|]). constructor.
    + apply ends_readdir.
  - apply errors_accounted_app; [exact (lists_dir_absorbed _ _ _ _ _ Hls)|].
    exact (children_accounted _ _ IH _ _ _ _ _ Hch).
  - apply absorbed_app; [exact (lists_dir_absorbed _ _ _ _ _ Hls)|].
    apply absorbed_app; [exact (children_accounted _ _ IH _ _ _ _ _ Hch)|].
    apply absorbed_call; [reflexivity|constructor].
  - apply errors_accounted_app; [exact (lists_dir_absorbed _ _ _ _ _ Hls)|].
    apply errors_accounted_app;
      [exact (children_accounted _ _ IH _ _ _ _ _ Hch)|].
    destruct st as [info|e']; simpl.
    + exists [], [CallRemove p (Some e); CallStat p (Ok info)].
      repeat split; [constructor|]. apply ends_remove. reflexivity.
    + destruct (IsNotExist e') eqn:Hnf.
      * apply absorbed_remove; [exact Hnf|constructor].
      * exists [], [CallRemove p (Some e); CallStat p (Err e')].
        repeat split; [constructor|]. apply ends_remove. exact Hnf.
Qed.

Variable File_eq_dec : forall f g : File, {f = g} + {f <> g}.

Lemma lists_dir_handles p s infos s0 tr0 open :
  lists_dir fs p s infos s0 tr0 -> open_handles File_eq_dec open tr0 = open.
Proof.
  intros [_ (info & s1 & f & s2 & s3 & cr & _ & _ & _ & _ & _ & ->)].
  simpl. destruct (File_eq_dec f f); [reflexivity|contradiction].
Qed.

Lemma children_handles (recurse : string -> @M E FS File (option E)) p :
  (forall q s r s' tr,
     recurse q s = Some (r, s', tr) ->
     forall open, open_handles File_eq_dec open tr = open) ->
  forall infos s r s' tr,
    children_at recurse p infos s r s' tr ->
    forall open, open_handles File_eq_dec open tr = open.
Proof.
  intros Hrec. induction 1 as [s|c rest s r s' tr _ _ IH|c rest s e s1 tr1 _ Hc
                              |c rest s s1 tr1 r s2 tr2 _ Hc _ IH]; intros open.
  - reflexivity.
  - apply IH.
  - exact (Hrec _ _ _ _ _ Hc open).
  - rewrite open_handles_app, (Hrec _ _ _ _ _ Hc open). apply IH.
Qed.

(** [RemoveAll] leaves open the handles that were open, and no other. *)
Lemma RemoveAll_handles fuel :
  forall p s r s' tr,
    RemoveAll fs fuel p s = Some (r, s', tr) ->
    forall open, open_handles File_eq_dec open tr = open.
Proof.
  induction fuel as [|fuel IH]; intros p s r s' tr Hrun open; [discriminate|].
  apply RemoveAll_inv in Hrun.
  destruct Hrun as [ra err s' Hnat Hra
                   |e s' Hnat Hst
                   |info s1 r s2 Hnat Hst Hdir Hrm
                   |info s1 e s2 Hnat Hst Hdir Hop
                   |info s1 f s2 e s3 cr s4 Hnat Hst Hdir Hop Hrd Hcl
                   |infos s0 tr0 e s1 tr1 Hls Hch
                   |infos s0 tr0 s1 tr1 s2 Hls Hch Hrm
                   |infos s0 tr0 s1 tr1 e s2 st s3 Hls Hch Hrm Hst];
    try reflexivity.
  - simpl. destruct (File_eq_dec f f); [reflexivity|contradiction].
  - rewrite open_handles_app, (lists_dir_handles _ _ _ _ _ _ Hls).
    exact (children_handles _ _ IH _ _ _ _ _ Hch open).
  - rewrite !open_handles_app, (lists_dir_handles _ _ _ _ _ _ Hls).
    rewrite (children_handles _ _ IH _ _ _ _ _ Hch open). reflexivity.
  - rewrite !open_handles_app, (lists_dir_handles _ _ _ _ _ _ Hls).
    rewrite (children_handles _ _ IH _ _ _ _ _ Hch open). reflexivity.
Qed.

End Induction.

(* ===================================================================== *)
(** ** Paths                                                               *)
(* ===================================================================== *)

Module GoPathFacts.

Import GoPath.

Lemma Split_nonempty s : Split s <> [].
Proof.
  destruct s as [|c s]; simpl; [discriminate|].
  destruct (Ascii.eqb c "/"); [discriminate|].
  destruct (Split s); discriminate.
Qed.

Lemma Split_app a b : Split (a ++ "/" ++ b) = Split a ++ Split b.
Proof.
  induction a as [|c a IH]; [reflexivity|].
  change (String c a ++ "/" ++ b)%string with (String c (a ++ "/" ++ b)).
  cbn [Split]. rewrite IH.
  destruct (Ascii.eqb c "/"); [reflexivity|].
  destruct (Split a) as [|h t] eqn:Hs; [|reflexivity].
  exfalso. exact (Split_nonempty _ Hs).
Qed.

Lemma Split_noslash x : noslash x -> Split x = [x].
Proof.
  unfold noslash. induction x as [|c x IH]; [reflexivity|].
  cbn [list_ascii_of_string forallb Split]. intros Hx.
  apply andb_prop in Hx. destruct Hx as [Hc Hx].
  destruct (Ascii.eqb c "/"); [discriminate|].
  rewrite (IH Hx). reflexivity.
Qed.

Lemma Split_elems s : Forall noslash (Split s).
Proof.
  induction s as [|c s IH]; [repeat constructor|].
  cbn [Split]. destruct (Ascii.eqb c "/") eqn:Hc.
  - constructor; [reflexivity|exact IH].
  - destruct (Split s) as [|h t]; inversion IH; subst.
    + repeat constructor. unfold noslash. simpl. rewrite Hc. reflexivity.
    + constructor; [|assumption].
      unfold noslash in *. cbn [list_ascii_of_string forallb].
      rewrite Hc. assumption.
Qed.

Lemma Split_JoinSlash l :
  l <> [] -> Forall noslash l -> Split (JoinSlash l) = l.
Proof.
  induction l as [|x l IH]; [contradiction|].
  intros _ Hl. inversion Hl as [|x' l' Hx Hl']; subst.
  destruct l as [|y l].
  - simpl. apply Split_noslash. exact Hx.
  - change (JoinSlash (x :: y :: l))
      with (x ++ "/" ++ JoinSlash (y :: l))%string.
    rewrite Split_app, (Split_noslash _ Hx), IH; [reflexivity| |assumption].
    discriminate.
Qed.

Lemma clean_step_elems (P : string -> Prop) r acc x :
  Forall P acc -> P x -> Forall P (clean_step r acc x).
Proof.
  intros Hacc Hx. unfold clean_step.
  destruct (x =? ""); [assumption|].
  destruct (x =? "."); [assumption|].
  destruct (x =? "..").
  - destruct acc as [|top below]; [destruct r; repeat constructor; assumption|].
    inversion Hacc; subst.
    destruct (top =? ".."); [destruct r|]; try assumption.
    constructor; assumption.
  - constructor; assumption.
Qed.

Lemma clean_fold_elems (P : string -> Prop) r l : forall acc,
  Forall P acc -> Forall P l -> Forall P (fold_left (clean_step r) l acc).
Proof.
  induction l as [|x l IH]; intros acc Hacc Hl; [exact Hacc|].
  inversion Hl; subst. simpl. apply IH; [|assumption].
  apply clean_step_elems; assumption.
Qed.

Lemma clean_step_kept r acc x :
  Forall (kept r) acc -> Forall (kept r) (clean_step r acc x).
Proof.
  intros Hacc. unfold clean_step.
  destruct (x =? "") eqn:H0; [assumption|].
  destruct (x =? ".") eqn:H1; [assumption|].
  destruct (x =? "..") eqn:H2.
  - apply String.eqb_eq in H2. subst x.
    destruct acc as [|top below].
    + destruct r; repeat constructor; discriminate.
    + inversion Hacc; subst.
      destruct (top =? ".."); [destruct r|]; try assumption.
      constructor; [|assumption]. repeat split; discriminate.
  - constructor; [|assumption]. repeat split; auto.
Qed.

(** Resolving from the root what the buffer holds after one more
    element is resolving one more element. *)
Lemma resolve_clean_step r acc x :
  Forall (kept r) acc ->
  fold_left (clean_step true) (rev (clean_step r acc x)) []
  = clean_step true (fold_left (clean_step true) (rev acc) []) x.
Proof.
  intros Hacc. unfold clean_step at 2.
  destruct (x =? "") eqn:H0.
  { unfold clean_step. rewrite H0. reflexivity. }
  destruct (x =? ".") eqn:H1.
  { unfold clean_step. rewrite H0, H1. reflexivity. }
  destruct (x =? "..") eqn:H2.
  - apply String.eqb_eq in H2. subst x. clear H0 H1.
    destruct acc as [|top below].
    + destruct r; reflexivity.
    + inversion Hacc as [|? ? (Ht0 & Ht1 & Ht2) Hbelow]; subst.
      cbn [rev]. rewrite fold_left_app. cbn [fold_left].
      destruct (top =? "..") eqn:Htop.
      * destruct r; [specialize (Ht2 eq_refl); discriminate|].
        cbn [rev]. rewrite !fold_left_app. reflexivity.
      * unfold clean_step at 3. rewrite Ht0, Ht1, Htop.
        unfold clean_step at 2. cbn [String.eqb Ascii.eqb Bool.eqb].
        rewrite Htop. reflexivity.
  - unfold clean_step at 2. rewrite H0, H1, H2.
    cbn [rev]. rewrite fold_left_app. cbn [fold_left].
    unfold clean_step at 1. rewrite H0, H1, H2. reflexivity.
Qed.

Lemma resolve_clean_fold r l : forall acc,
  Forall (kept r) acc ->
  fold_left (clean_step true) (rev (fold_left (clean_step r) l acc)) []
  = fold_left (clean_step true) l
      (fold_left (clean_step true) (rev acc) []).
Proof.
  induction l as [|x l IH]; intros acc Hacc; [reflexivity|].
  cbn [fold_left]. rewrite IH by (apply clean_step_kept, Hacc).
  rewrite resolve_clean_step by exact Hacc. reflexivity.
Qed.

(** A cleaned path resolves, from the root, as the path itself. *)
Lemma clean_elems_Clean x : clean_elems true (Clean x) = clean_elems true x.
Proof.
  unfold Clean. destruct (x =? "") eqn:Hx.
  { apply String.eqb_eq in Hx. subst x. reflexivity. }
  pose proof (resolve_clean_fold (rooted x) (Split x) [] (Forall_nil _)) as Hres.
  cbn [rev fold_left] in Hres.
  assert (Hns : Forall noslash (clean_elems (rooted x) x)).
  { unfold clean_elems. apply Forall_rev, clean_fold_elems;
      [constructor|apply Split_elems]. }
  fold (clean_elems (rooted x) x) in Hres.
  unfold clean_elems at 3. rewrite <- Hres.
  destruct (clean_elems (rooted x) x) as [|o out] eqn:Hout.
  { destruct (rooted x); reflexivity. }
  unfold clean_elems. f_equal.
  destruct (rooted x).
  - change ("/" ++ JoinSlash (o :: out))%string
      with ("" ++ "/" ++ JoinSlash (o :: out))%string.
    rewrite Split_app, Split_JoinSlash by (assumption || discriminate).
    reflexivity.
  - change ("" ++ JoinSlash (o :: out))%string with (JoinSlash (o :: out)).
    rewrite Split_JoinSlash by (assumption || discriminate). reflexivity.
Qed.

(** The path of a child: joining a plain name to a path adds the name
    to what the path resolves to. *)
Lemma clean_elems_Join p c :
  (c =? "") = false -> (c =? ".") = false -> (c =? "..") = false ->
  noslash c ->
  clean_elems true (Join p c) = clean_elems true p ++ [c].
Proof.
  intros H0 H1 H2 Hns. unfold Join. rewrite H0.
  destruct (p =? "") eqn:Hp.
  - apply String.eqb_eq in Hp. subst p. rewrite clean_elems_Clean.
    unfold clean_elems. rewrite (Split_noslash _ Hns). simpl.
    unfold clean_step. rewrite H0, H1, H2. reflexivity.
  - rewrite clean_elems_Clean. unfold clean_elems.
    rewrite Split_app, (Split_noslash _ Hns), fold_left_app. simpl.
    unfold clean_step at 1. rewrite H0, H1, H2. reflexivity.
Qed.

End GoPathFacts.

(* ===================================================================== *)
(** ** The reference filesystem: trees                                    *)
(* ===================================================================== *)

Module MemFSFacts.

Import MemFS.

Lemma node_rect_nested (P : node -> Prop) :
  (forall n, P (File n)) ->
  (forall es, Forall (fun e => P (snd e)) es -> P (Dir es)) ->
  forall t, P t.
Proof.
  intros HF HD. fix IH 1. intros [n|es]; [apply HF|].
  apply HD. induction es as [|[c t] es IHes]; constructor; [apply IH|exact IHes].
Qed.

Lemma find_update c f es :
  find c (update c f es) = option_map f (find c es).
Proof.
  induction es as [|[n t] es IH]; [reflexivity|].
  simpl. destruct (n =? c) eqn:Hn; simpl; rewrite Hn; [reflexivity|exact IH].
Qed.

Lemma find_drop c es : find c (drop c es) = None.
Proof.
  induction es as [|[n t] es IH]; [reflexivity|].
  unfold drop in *. simpl. destruct (n =? c) eqn:Hn; simpl; [exact IH|].
  rewrite Hn. exact IH.
Qed.

Lemma drop_update c f es : drop c (update c f es) = drop c es.
Proof.
  induction es as [|[n t] es IH]; [reflexivity|].
  unfold drop in *. simpl. destruct (n =? c) eqn:Hn; simpl; rewrite Hn; simpl.
  - reflexivity.
  - rewrite IH. reflexivity.
Qed.

Lemma update_update c f g es :
  update c f (update c g es) = update c (fun t => f (g t)) es.
Proof.
  induction es as [|[n t] es IH]; [reflexivity|].
  simpl. destruct (n =? c) eqn:Hn; simpl; rewrite Hn; [reflexivity|].
  rewrite IH. reflexivity.
Qed.

Lemma update_ext c f g es :
  (forall t, f t = g t) -> update c f es = update c g es.
Proof.
  intros Hfg. induction es as [|[n t] es IH]; [reflexivity|].
  simpl. rewrite Hfg, IH. reflexivity.
Qed.

Lemma update_names c f es : map fst (update c f es) = map fst es.
Proof.
  induction es as [|[n t] es IH]; [reflexivity|].
  simpl. destruct (n =? c); simpl; [reflexivity|]. rewrite IH. reflexivity.
Qed.

Lemma drop_fresh c es : ~ In c (map fst es) -> drop c es = es.
Proof.
  induction es as [|[n t] es IH]; [reflexivity|].
  simpl. intros Hnot. unfold drop in *. simpl.
  destruct (n =? c) eqn:Hn.
  - apply String.eqb_eq in Hn. tauto.
  - simpl. rewrite IH; tauto.
Qed.

Lemma drop_head c t es :
  NoDup (map fst ((c, t) :: es)) -> drop c ((c, t) :: es) = es.
Proof.
  simpl. intros Hnd. inversion Hnd; subst.
  unfold drop. simpl. rewrite String.eqb_refl. simpl.
  apply drop_fresh. assumption.
Qed.

Lemma lookup_app cs l t :
  lookup (cs ++ l) t = match lookup cs t with
                       | Some t' => lookup l t'
                       | None => None
                       end.
Proof.
  revert t. induction cs as [|c cs IH]; intros t; [reflexivity|].
  simpl. destruct t as [n|es]; [reflexivity|].
  destruct (find c es); [apply IH|reflexivity].
Qed.

Lemma delete_cons c cs es :
  cs <> [] -> delete (c :: cs) (Dir es) = Dir (update c (delete cs) es).
Proof. destruct cs; [contradiction|reflexivity]. Qed.

Lemma snoc_nonempty (cs : list string) c : cs ++ [c] <> [].
Proof. destruct cs; discriminate. Qed.

(** What is deleted is no longer found. *)
Lemma lookup_delete cs : forall t, cs <> [] -> lookup cs (delete cs t) = None.
Proof.
  induction cs as [|c cs IH]; intros t Hne; [contradiction|].
  destruct t as [n|es]; [reflexivity|].
  destruct cs as [|c' cs].
  - simpl. rewrite find_drop. reflexivity.
  - rewrite delete_cons by discriminate.
    cbn [lookup]. rewrite find_update.
    destruct (find c es) as [t'|]; [|reflexivity].
    simpl option_map. cbv iota. apply IH. discriminate.
Qed.

(** Deleting an entry of a directory leaves the directory, without the
    entry. *)
Lemma lookup_delete_child c cs : forall t es,
  lookup cs t = Some (Dir es) ->
  lookup cs (delete (cs ++ [c]) t) = Some (Dir (drop c es)).
Proof.
  induction cs as [|c0 cs IH]; intros t es.
  - simpl. intros Heq. inversion Heq; subst. reflexivity.
  - destruct t as [n|es0]; [discriminate|].
    cbn [lookup]. destruct (find c0 es0) as [t0|] eqn:Hf; [|discriminate].
    intros Hl. change ((c0 :: cs) ++ [c]) with (c0 :: (cs ++ [c])).
    rewrite delete_cons by apply snoc_nonempty.
    cbn [lookup]. rewrite find_update, Hf. simpl option_map. cbv iota.
    apply IH. exact Hl.
Qed.

(** Deleting a directory forgets what was deleted in it before. *)
Lemma delete_delete_child c cs : forall t,
  cs <> [] -> delete cs (delete (cs ++ [c]) t) = delete cs t.
Proof.
  induction cs as [|c0 cs IH]; intros t Hne; [contradiction|].
  destruct t as [n|es0]; [destruct cs; reflexivity|].
  change ((c0 :: cs) ++ [c]) with (c0 :: (cs ++ [c])).
  rewrite delete_cons by apply snoc_nonempty.
  destruct cs as [|c1 cs].
  - simpl. rewrite drop_update. reflexivity.
  - rewrite !delete_cons by discriminate.
    rewrite update_update. f_equal. apply update_ext. intros t.
    apply (IH t). discriminate.
Qed.

Lemma wf_entries es : wf (Dir es) ->
  NoDup (map fst es) /\ Forall (fun e => valid_name (fst e) = true /\ wf (snd e)) es.
Proof. intros Hwf. inversion Hwf; auto. Qed.

Lemma wf_find c es t :
  Forall (fun e => valid_name (fst e) = true /\ wf (snd e)) es ->
  find c es = Some t -> wf t.
Proof.
  induction 1 as [|[n t'] es [_ Ht'] _ IH]; [discriminate|].
  simpl. destruct (n =? c); [|exact IH].
  intros Heq. inversion Heq; subst. exact Ht'.
Qed.

Lemma wf_lookup cs : forall t t', wf t -> lookup cs t = Some t' -> wf t'.
Proof.
  induction cs as [|c cs IH]; intros t t' Hwf.
  - simpl. intros Heq. inversion Heq; subst. exact Hwf.
  - destruct t as [n|es]; [discriminate|]. simpl.
    destruct (find c es) as [t0|] eqn:Hf; [|discriminate].
    apply IH. apply wf_entries in Hwf. destruct Hwf as [_ Hall].
    exact (wf_find _ _ _ Hall Hf).
Qed.

Lemma wf_drop c es : wf (Dir es) -> wf (Dir (drop c es)).
Proof.
  intros Hwf. apply wf_entries in Hwf. destruct Hwf as [Hnd Hall].
  constructor.
  - unfold drop. clear Hall. induction es as [|[n t] es IH]; [constructor|].
    simpl in *. inversion Hnd; subst.
    destruct (n =? c); simpl; [auto|]. constructor; [|auto].
    intros Hin. apply in_map_iff in Hin. destruct Hin as ([n' t'] & Hn & Hin).
    simpl in Hn. subst n'. apply filter_In in Hin. destruct Hin as [Hin _].
    apply H1. apply in_map_iff. exists (n, t'). auto.
  - unfold drop. apply Forall_forall. intros e He.
    apply filter_In in He. destruct He as [He _].
    revert e He. apply Forall_forall. exact Hall.
Qed.

Lemma wf_update c f es :
  (forall t, wf t -> wf (f t)) -> wf (Dir es) -> wf (Dir (update c f es)).
Proof.
  intros Hf Hwf. apply wf_entries in Hwf. destruct Hwf as [Hnd Hall].
  constructor; [rewrite update_names; exact Hnd|].
  clear Hnd. induction Hall as [|[n t] es [Hn Ht] Hall IH]; [constructor|].
  simpl in *. destruct (n =? c); constructor; simpl; auto.
Qed.

Lemma wf_delete cs : forall t, wf t -> wf (delete cs t).
Proof.
  induction cs as [|c cs IH]; intros t Hwf; [exact Hwf|].
  destruct t as [n|es]; [exact Hwf|].
  destruct cs as [|c' cs].
  - apply wf_drop. exact Hwf.
  - rewrite delete_cons by discriminate. apply wf_update; [|exact Hwf].
    intros t. apply IH.
Qed.

Lemma valid_name_inv c :
  valid_name c = true ->
  (c =? "") = false /\ (c =? ".") = false /\ (c =? "..") = false /\
  GoPath.noslash c.
Proof.
  unfold valid_name, GoPath.noslash. intros Hv.
  apply andb_prop in Hv. destruct Hv as [Hv H3].
  apply andb_prop in Hv. destruct Hv as [Hv H2].
  apply andb_prop in Hv. destruct Hv as [H0 H1].
  rewrite negb_true_iff in H0, H1, H2. auto.
Qed.

(** The path of an entry of a directory resolves to the entry. *)
Lemma resolve_child p c :
  valid_name c = true -> resolve (GoPath.Join p c) = resolve p ++ [c].
Proof.
  intros Hv. apply valid_name_inv in Hv. destruct Hv as (H0 & H1 & H2 & Hns).
  apply GoPathFacts.clean_elems_Join; assumption.
Qed.

Lemma wf_chain names file :
  Forall (fun n => valid_name n = true) names -> valid_name file = true ->
  wf (chain names file).
Proof.
  intros Hn Hf. induction Hn as [|n names Hv _ IH]; simpl.
  - constructor; [repeat constructor; intros []|].
    repeat constructor. exact Hf.
  - constructor; [repeat constructor; intros []|].
    repeat constructor; assumption.
Qed.

End MemFSFacts.

(* ===================================================================== *)
(** ** [RemoveAll] on the reference filesystem                            *)
(* ===================================================================== *)

Section Fuel.

Context {E FS File : Type} `{ErrorKind E}.
Variable fs : Filer E FS File.

Lemma children_at_fuel fuel fuel' p infos s r s' tr :
  fuel <= fuel' ->
  children_at (RemoveAll fs fuel) p infos s r s' tr ->
  children_at (RemoveAll fs fuel') p infos s r s' tr.
Proof.
  intros Hle.
  induction 1 as [s|c rest s r s' tr Hskip _ IH|c rest s e s1 tr1 Hskip Hc
                 |c rest s s1 tr1 r s2 tr2 Hskip Hc _ IH].
  - constructor.
  - apply children_skip; assumption.
  - apply children_fail; [assumption|].
    exact (RemoveAll_mono fs _ _ _ _ _ Hle Hc).
  - apply children_next with (s1 := s1); [assumption| |assumption].
    exact (RemoveAll_mono fs _ _ _ _ _ Hle Hc).
Qed.

End Fuel.

Module MemFSWalk.

Import MemFS MemFSFacts.

Lemma stat_found p root t :
  lookup (resolve p) root = Some t ->
  Stat p root = (Ok (info_of (base (resolve p)) t), root).
Proof. unfold Stat. intros ->. reflexivity. Qed.

Lemma remove_leaf p root t :
  resolve p <> [] -> lookup (resolve p) root = Some t ->
  (exists n, t = File n) \/ t = Dir [] ->
  Remove p root = (None, delete (resolve p) root).
Proof.
  intros Hne Hl Ht. unfold Remove.
  destruct (resolve p) as [|c cs] eqn:Hcs; [contradiction|].
  rewrite Hl. destruct Ht as [[n ->]| ->]; reflexivity.
Qed.

Lemma remove_root p root :
  resolve p = [] -> Remove p root = (Some EINVAL, root).
Proof. unfold Remove. intros ->. reflexivity. Qed.

Section Manual.

Variable cfg : Config.
Hypothesis Hman : has_RemoveAll cfg = false.

Lemma manual_walk : fs_RemoveAller (filer cfg) = None.
Proof. simpl. rewrite Hman. reflexivity. Qed.

Lemma lists_found_dir p root es :
  lookup (resolve p) root = Some (Dir es) ->
  lists_dir (filer cfg) p root (listing cfg es) root
    [CallStat p (Ok (info_of (base (resolve p)) (Dir es)));
     CallOpenFile p O_RDONLY 0 (Ok (resolve p));
     CallReaddir (resolve p) 0 (Ok (listing cfg es));
     CallClose (resolve p) None].
Proof.
  intros Hl. split; [exact manual_walk|].
  exists (info_of (base (resolve p)) (Dir es)), root, (resolve p), root, root,
    None.
  simpl. unfold OpenFile, Readdir. rewrite (stat_found _ _ _ Hl), Hl.
  repeat split.
Qed.

Lemma children_listing
    (recurse : string -> @M Errno node (list string) (option Errno))
    p es s r s' tr :
  children_at recurse p (map (fun e => info_of (fst e) (snd e)) es) s r s' tr ->
  children_at recurse p (listing cfg es) s r s' tr.
Proof.
  intros Hch. unfold listing. destruct (lists_dots cfg); [|exact Hch].
  apply children_skip; [reflexivity|]. apply children_skip; [reflexivity|].
  exact Hch.
Qed.

(** The loop removes every entry of a directory whose entries are all
    removable. *)
Lemma children_removed p : forall es,
  Forall (fun e => removable cfg (snd e)) es ->
  forall st, wf st -> lookup (resolve p) st = Some (Dir es) ->
  exists fuel st' tr,
    children_at (RemoveAll (filer cfg) fuel) p
      (map (fun e => info_of (fst e) (snd e)) es) st None st' tr /\
    wf st' /\ lookup (resolve p) st' = Some (Dir []) /\
    (resolve p <> [] -> delete (resolve p) st' = delete (resolve p) st).
Proof.
  induction es as [|[c tc] es IH]; intros Hall st Hwf Hl.
  { exists 0, st, []. split; [constructor|auto]. }
  inversion Hall as [|? ? Hrc Hall']; subst. simpl in Hrc.
  pose proof (wf_lookup _ _ _ Hwf Hl) as Hwfd.
  apply wf_entries in Hwfd. destruct Hwfd as [Hnd Hvalid].
  inversion Hvalid as [|? ? [Hvc _] _]; subst. simpl in Hvc.
  pose proof (resolve_child p c Hvc) as Hres.
  destruct (Hrc st (GoPath.Join p c)) as (fuel1 & tr1 & Hrun1).
  { exact Hwf. }
  { rewrite Hres. apply snoc_nonempty. }
  { rewrite Hres, lookup_app, Hl. simpl. rewrite String.eqb_refl.
    reflexivity. }
  rewrite Hres in Hrun1.
  destruct (IH Hall' (delete (resolve p ++ [c]) st))
    as (fuel2 & st' & tr2 & Hch & Hwf' & Hl' & Hdel).
  { apply wf_delete. exact Hwf. }
  { rewrite (lookup_delete_child c _ _ _ Hl), drop_head by exact Hnd.
    reflexivity. }
  exists (Nat.max fuel1 fuel2), st', (tr1 ++ tr2).
  split; [|split; [exact Hwf'|split; [exact Hl'|]]].
  - apply children_next with (s1 := delete (resolve p ++ [c]) st).
    + apply valid_name_inv in Hvc. destruct Hvc as (_ & H1 & H2 & _).
      unfold skipped. simpl. rewrite H1, H2. reflexivity.
    + simpl. eapply RemoveAll_mono; [apply Nat.le_max_l|exact Hrun1].
    + eapply children_at_fuel; [apply Nat.le_max_r|exact Hch].
  - intros Hne. rewrite (Hdel Hne). apply delete_delete_child. exact Hne.
Qed.

(** Every tree is removable: [RemoveAll] needs no more nested calls
    than the tree is deep. *)
Lemma all_removable : forall t, removable cfg t.
Proof.
  apply node_rect_nested.
  - intros n root p Hwf Hne Hl. exists 1. eexists.
    apply RemoveAll_returns. eapply return_file.
    + exact manual_walk.
    + simpl. exact (stat_found _ _ _ Hl).
    + reflexivity.
    + simpl. apply (remove_leaf _ _ _ Hne Hl). left. exists n. reflexivity.
  - intros es IHes root p Hwf Hne Hl.
    destruct (children_removed p es IHes root Hwf Hl)
      as (fuel & st' & tr & Hch & Hwf' & Hl' & Hdel).
    exists (S fuel). eexists.
    apply RemoveAll_returns. rewrite <- (Hdel Hne). eapply return_removed.
    + exact (lists_found_dir _ _ _ Hl).
    + apply children_listing. exact Hch.
    + simpl. apply (remove_leaf _ _ _ Hne Hl'). right. reflexivity.
Qed.

Lemma manual_terminates root p :
  wf root ->
  exists fuel r s' tr, RemoveAll (filer cfg) fuel p root = Some (r, s', tr).
Proof.
  intros Hwf. destruct (lookup (resolve p) root) as [t|] eqn:Hl.
  2:{ exists 1. do 3 eexists. apply RemoveAll_returns. eapply return_stat.
      - exact manual_walk.
      - simpl. unfold Stat. rewrite Hl. reflexivity. }
  destruct (resolve p) as [|c cs] eqn:Hcs.
  2:{ destruct (all_removable t root p Hwf) as (fuel & tr & Hrun).
      - rewrite Hcs. discriminate.
      - rewrite Hcs. exact Hl.
      - exists fuel. do 3 eexists. exact Hrun. }
  simpl in Hl. inversion Hl; subst t. destruct root as [n|es].
  - exists 1. do 3 eexists. apply RemoveAll_returns. eapply return_file.
    + exact manual_walk.
    + simpl. apply stat_found. rewrite Hcs. reflexivity.
    + reflexivity.
    + simpl. apply remove_root. exact Hcs.
  - assert (Hl' : lookup (resolve p) (Dir es) = Some (Dir es)).
    { rewrite Hcs. reflexivity. }
    destruct (children_removed p es) with (st := Dir es)
      as (fuel & st' & tr & Hch & Hwf' & Hst' & _); auto.
    { apply Forall_forall. intros e _. apply all_removable. }
    exists (S fuel). do 3 eexists. apply RemoveAll_returns.
    eapply return_restat.
    + exact (lists_found_dir _ _ _ Hl').
    + apply children_listing. exact Hch.
    + simpl. apply remove_root. exact Hcs.
    + simpl. apply stat_found. exact Hst'.
Qed.

End Manual.

Lemma terminates cfg root p :
  wf root ->
  exists fuel r s' tr, RemoveAll (filer cfg) fuel p root = Some (r, s', tr).
Proof.
  intros Hwf. destruct (has_RemoveAll cfg) eqn:Hnat.
  - exists 1. destruct (NativeRemoveAll p root) as [err s1] eqn:Hra.
    do 3 eexists. apply RemoveAll_returns. eapply return_native.
    + simpl. rewrite Hnat. reflexivity.
    + exact Hra.
  - apply manual_terminates; assumption.
Qed.

End MemFSWalk.

(* ===================================================================== *)
(** ** [MkdirAll]                                                         *)
(* ===================================================================== *)

Module MkdirFacts.

Import GoPath GoPathFacts.

Lemma append_assoc (a b c : string) :
  ((a ++ b) ++ c)%string = (a ++ (b ++ c))%string.
Proof. induction a as [|x a IH]; simpl; [reflexivity|]. rewrite IH. reflexivity. Qed.

Lemma JoinSlash_snoc l x :
  l <> [] -> JoinSlash (l ++ [x]) = (JoinSlash l ++ "/" ++ x)%string.
Proof.
  induction l as [|y l IH]; [contradiction|]. intros _.
  destruct l as [|z l]; [reflexivity|].
  change (JoinSlash ((y :: z :: l) ++ [x]))
    with (y ++ "/" ++ JoinSlash ((z :: l) ++ [x]))%string.
  rewrite IH by discriminate.
  change (JoinSlash (y :: z :: l)) with (y ++ "/" ++ JoinSlash (z :: l))%string.
  rewrite !append_assoc. reflexivity.
Qed.

Lemma clean_fold_kept_all l : forall acc,
  Forall (kept true) l ->
  fold_left (clean_step true) l acc = rev l ++ acc.
Proof.
  induction l as [|x l IH]; intros acc Hl; [reflexivity|].
  inversion Hl as [|? ? (H0 & H1 & H2) Hl']; subst.
  cbn [fold_left rev]. rewrite IH by exact Hl'.
  unfold clean_step. rewrite H0, H1, (H2 eq_refl), <- app_assoc. reflexivity.
Qed.

(** Joining a plain element to a clean rooted path appends it. *)
Lemma Join_rooted done x :
  Forall (kept true) done -> Forall noslash done ->
  kept true x -> noslash x ->
  Join ("/" ++ JoinSlash done) x = ("/" ++ JoinSlash (done ++ [x]))%string.
Proof.
  intros Hk Hns Hx Hnx. destruct Hx as (H0 & H1 & H2).
  unfold Join. rewrite H0. cbn [append String.eqb].
  unfold Clean. cbn [String.eqb rooted Ascii.eqb Bool.eqb andb].
  assert (Hel : clean_elems true (String "/" (JoinSlash done ++ String "/" x))
                = done ++ [x]).
  { unfold clean_elems.
    change (String "/" (JoinSlash done ++ String "/" x))
      with ("" ++ "/" ++ (JoinSlash done ++ "/" ++ x))%string.
    rewrite !Split_app, (Split_noslash _ Hnx).
    destruct done as [|d done].
    - simpl. unfold clean_step. rewrite H0, H1, (H2 eq_refl). reflexivity.
    - rewrite Split_JoinSlash by (assumption || discriminate).
      change (Split "" ++ (d :: done) ++ [x])
        with ("" :: ((d :: done) ++ [x])).
      change (fold_left (clean_step true) ("" :: ((d :: done) ++ [x])) [])
        with (fold_left (clean_step true) ((d :: done) ++ [x]) []).
      rewrite clean_fold_kept_all.
      + rewrite app_nil_r. apply rev_involutive.
      + apply Forall_app. split; [exact Hk|]. repeat constructor; auto. }
  rewrite Hel. destruct (done ++ [x]) as [|o out] eqn:Hdx; [|reflexivity].
  destruct done; discriminate.
Qed.

Lemma elements_kept name :
  Forall (fun x => plain x = true) (elements name) ->
  Forall (kept true) (elements name) /\ Forall noslash (elements name).
Proof.
  unfold elements. intros Hp. split.
  - apply Forall_forall. intros x Hx. rewrite Forall_forall in Hp.
    specialize (Hp x Hx). apply filter_In in Hx. destruct Hx as [_ Hne].
    unfold plain in Hp. apply andb_prop in Hp. destruct Hp as [H1 H2].
    rewrite negb_true_iff in *. repeat split; auto.
  - apply Forall_forall. intros x Hx. apply filter_In in Hx.
    destruct Hx as [Hx _]. revert x Hx. apply Forall_forall, Split_elems.
Qed.

Lemma running_paths_prefixes elems : forall done,
  Forall (kept true) done -> Forall noslash done ->
  Forall (kept true) elems -> Forall noslash elems ->
  running_paths ("/" ++ JoinSlash done) elems
  = prefixes_from (match done with
                   | [] => ""
                   | _ => "/" ++ JoinSlash done
                   end)%string elems.
Proof.
  induction elems as [|x elems IH]; intros done Hk Hns Hke Hnse;
    [reflexivity|].
  inversion Hke; inversion Hnse; subst.
  cbn [running_paths prefixes_from].
  rewrite Join_rooted by assumption.
  assert (Hp : ("/" ++ JoinSlash (done ++ [x]))%string
               = ((match done with
                   | [] => ""
                   | _ => "/" ++ JoinSlash done
                   end) ++ "/" ++ x)%string).
  { destruct done as [|d done]; [reflexivity|].
    rewrite JoinSlash_snoc by discriminate. reflexivity. }
  rewrite <- Hp. f_equal.
  rewrite IH; try assumption.
  - destruct (done ++ [x]) eqn:Hdx; [destruct done; discriminate|].
    reflexivity.
  - apply Forall_app. auto.
  - apply Forall_app. auto.
Qed.

Lemma Clean_rooted s :
  rooted s = true ->
  Clean s = match clean_elems true s with
            | [] => "/"
            | o :: out => ("/" ++ JoinSlash (o :: out))%string
            end.
Proof.
  intros Hr. unfold Clean. destruct s as [|c s]; [discriminate|].
  cbn [String.eqb]. rewrite Hr.
  destruct (clean_elems true (String c s)); reflexivity.
Qed.

Lemma rooted_Clean s : rooted s = true -> rooted (Clean s) = true.
Proof.
  intros Hr. rewrite (Clean_rooted _ Hr).
  destruct (clean_elems true s); reflexivity.
Qed.

Lemma clean_elems_snoc s x :
  clean_elems true (s ++ "/" ++ x)
  = rev (fold_left (clean_step true) (Split x) (rev (clean_elems true s))).
Proof.
  unfold clean_elems. rewrite Split_app, fold_left_app, rev_involutive.
  reflexivity.
Qed.

(** The running path of [MkdirAll] is the cleaned prefix. *)
Lemma running_paths_Clean elems :
  Forall (fun x => (x =? "") = false) elems ->
  forall p q,
    rooted p = true -> rooted (q ++ "/") = true ->
    clean_elems true p = clean_elems true q ->
    running_paths p elems = map Clean (prefixes_from q elems).
Proof.
  induction 1 as [|x elems Hx _ IH]; intros p q Hp Hq Hpq; [reflexivity|].
  cbn [running_paths prefixes_from map].
  assert (Hrq : rooted (q ++ "/" ++ x) = true).
  { destruct q; [reflexivity|exact Hq]. }
  assert (Hj : Join p x = Clean (q ++ "/" ++ x)).
  { unfold Join. rewrite Hx. destruct p as [|c p]; [discriminate|].
    cbn [String.eqb]. rewrite !Clean_rooted by (exact Hp || exact Hrq).
    rewrite !clean_elems_snoc, Hpq. reflexivity. }
  rewrite Hj. f_equal. apply IH.
  - apply rooted_Clean. exact Hrq.
  - destruct q; exact Hrq.
  - apply clean_elems_Clean.
Qed.

Lemma mkdir_targets_Clean name :
  mkdir_targets name = map Clean (prefixes name).
Proof.
  unfold mkdir_targets, prefixes. apply running_paths_Clean; try reflexivity.
  unfold elements. apply Forall_forall. intros x Hx.
  apply filter_In in Hx. destruct Hx as [_ Hx].
  apply negb_true_iff. exact Hx.
Qed.

Section Loop.

Context {E FS File : Type} `{ErrorKind E}.
Variable fs : Filer E FS File.

(** The loop of [MkdirAll] always returns, and as [mkdir_outcome]
    says. *)
Lemma mkdirEach_outcome perm names : forall p s,
  exists r s' tr,
    mkdirEach fs perm p names s = Some (r, s', tr) /\
    mkdir_outcome perm
      (running_paths p (filter (fun x => negb (x =? "")) names)) r tr.
Proof.
  induction names as [|name rest IH]; intros p s.
  { exists None, s, []. repeat split. constructor. }
  cbn [mkdirEach filter]. destruct (name =? "") eqn:Hname; [apply IH|].
  cbn [negb running_paths]. unfold Mkdir.
  destruct (fs_Mkdir fs (GoPath.Join p name) perm s) as [err s1] eqn:Hmk.
  run_call Hmk.
  assert (Hgo : forall r0,
    mkdir_tolerated (CallMkdir (File := File) (GoPath.Join p name) perm r0)
      = true ->
    exists r s' tr,
      match mkdirEach fs perm (GoPath.Join p name) rest s1 with
      | Some (b, s2, t2) =>
          Some (b, s2, [CallMkdir (GoPath.Join p name) perm r0] ++ t2)
      | None => None
      end = Some (r, s', tr) /\
      mkdir_outcome perm
        (GoPath.Join p name
           :: running_paths (GoPath.Join p name)
                (filter (fun x => negb (x =? "")) rest)) r tr).
  { intros r0 Htol.
    destruct (IH (GoPath.Join p name) s1) as (r & s' & tr & -> & Hall & Hout).
    exists r, s', ([CallMkdir (GoPath.Join p name) perm r0] ++ tr).
    split; [reflexivity|]. split.
    { constructor; [reflexivity|exact Hall]. }
    destruct r as [e|].
    - destruct Hout as (tr0 & q & rest' & -> & He & Htr0 & Htargets).
      exists (CallMkdir (GoPath.Join p name) perm r0 :: tr0), q, rest'.
      repeat split; auto.
      + cbn [forallb]. rewrite Htol, Htr0. reflexivity.
      + rewrite Htargets. reflexivity.
    - destruct Hout as [Hpaths Htr]. split.
      + cbn [app]. unfold mkdir_paths in *. cbn [flat_map mkdir_path app].
        rewrite Hpaths. reflexivity.
      + cbn [app forallb]. rewrite Htol, Htr. reflexivity. }
  destruct err as [e|]; [|apply Hgo; reflexivity].
  destruct (IsExist e) eqn:He; cbn [negb]; [apply Hgo; exact He|].
  exists (Some e), s1, [CallMkdir (GoPath.Join p name) perm (Some e)].
  split; [reflexivity|]. split; [repeat constructor|].
  exists [], (GoPath.Join p name),
    (running_paths (GoPath.Join p name)
       (filter (fun x => negb (x =? "")) rest)).
  repeat split; auto.
Qed.

Lemma outcome_tolerated perm targets r (tr : list (Call E File)) :
  mkdir_outcome perm targets r tr ->
  (forallb mkdir_tolerated tr = true <-> r = None).
Proof.
  intros [_ Hout]. destruct r as [e|].
  - destruct Hout as (tr0 & q & rest & -> & He & _ & _). split; [|discriminate].
    rewrite forallb_app. cbn [forallb mkdir_tolerated call_error].
    rewrite He, !andb_false_r. discriminate.
  - destruct Hout as [_ Htr]. split; auto.
Qed.

End Loop.

End MkdirFacts.

(* ===================================================================== *)
(** ** The properties of [RemoveAll] and [MkdirAll]                       *)
(* ===================================================================== *)

Section Properties.

Context {E FS File : Type} `{ErrorKind E}.
Variable fs : Filer E FS File.

(** C2.  A path that does not exist is removed successfully: when the
    native bulk delete fails with not-found, and when, in the manual
    walk, [Stat] fails with not-found, [RemoveAll] returns nil; any other
    error of [Stat] is returned at once, no other call being made. *)
Theorem RemoveAll_not_exist fuel p s :
  (forall ra e s',
     fs_RemoveAller fs = Some ra -> ra p s = (Some e, s') ->
     IsNotExist e = true ->
     RemoveAll fs (S fuel) p s
       = Some (None, s', [CallRemoveAll p (Some e)])) /\
  (forall e s',
     fs_RemoveAller fs = None -> fs_Stat fs p s = (Err e, s') ->
     RemoveAll fs (S fuel) p s
       = Some (if IsNotExist e then None else Some e, s',
               [CallStat p (Err e)])).
Proof.
  split.
  - intros ra e s' Hnat Hra Hnf.
    erewrite RemoveAll_returns by (eapply return_native; eassumption).
    simpl. rewrite Hnf. reflexivity.
  - intros e s' Hnat Hst.
    apply RemoveAll_returns. apply return_stat; assumption.
Qed.

(** C3.  With the [RemoveAller] capability, [RemoveAll] makes the one
    call of the native bulk delete and none of the calls of the manual
    walk; a not-found result becomes nil and every other result is
    returned as it is. *)
Theorem RemoveAll_native ra fuel p s err s' :
  fs_RemoveAller fs = Some ra -> ra p s = (err, s') ->
  RemoveAll fs (S fuel) p s
    = Some (if os_IsNotExist err then None else err, s',
            [CallRemoveAll p err])
  /\ Forall (fun c : Call E File => is_walk_call c = false)
       [CallRemoveAll p err].
Proof.
  intros Hnat Hra. split.
  - apply RemoveAll_returns. eapply return_native; eassumption.
  - repeat constructor.
Qed.

(** C4, amended.  Without the [RemoveAller] capability, for a path that
    [Stat] reports as existing and not a directory, [RemoveAll] is the
    single-entry [Remove]: after the [Stat] it makes exactly one call,
    the [Remove] of the path, and returns its result and its state. *)
Theorem RemoveAll_file fuel p s info s1 r s2 :
  fs_RemoveAller fs = None ->
  fs_Stat fs p s = (Ok info, s1) -> IsDir info = false ->
  fs_Remove fs p s1 = (r, s2) ->
  RemoveAll fs (S fuel) p s
    = Some (r, s2, [CallStat p (Ok info); CallRemove p r])
  /\ count_Remove p
       ([CallStat p (Ok info); CallRemove p r] : list (Call E File)) = 1.
Proof.
  intros Hnat Hst Hdir Hrm. split.
  - apply RemoveAll_returns. eapply return_file; eassumption.
  - unfold count_Remove. simpl. rewrite String.eqb_refl. reflexivity.
Qed.

(** C5.  The children are removed in the order of the listing, and the
    first one whose removal fails ends the walk: [RemoveAll] returns the
    error of that child, in the state that child left, and the trace
    stops with the trace of that child.  No call at all is made after
    it, so none on a later sibling and none on the directory itself. *)
Theorem RemoveAll_child_fails fuel p s infos s0 tr0 pre c post s1 tr1
    e s2 tr2 :
  lists_dir fs p s infos s0 tr0 ->
  infos = pre ++ c :: post ->
  removeChildren (RemoveAll fs fuel) p pre s0 = Some (None, s1, tr1) ->
  skipped c = false ->
  RemoveAll fs fuel (GoPath.Join p (Name c)) s1 = Some (Some e, s2, tr2) ->
  RemoveAll fs (S fuel) p s = Some (Some e, s2, tr0 ++ tr1 ++ tr2).
Proof.
  intros Hls -> Hpre Hskip Hc.
  rewrite (RemoveAll_dir fs _ _ _ _ _ _ Hls).
  rewrite (removeChildren_app _ _ _ _ _ _ _ Hpre).
  simpl. unfold skipped in Hskip. rewrite Hskip.
  erewrite bind_eq by exact Hc. unfold ret. simpl.
  rewrite app_nil_r. reflexivity.
Qed.

(** C6.  When the children of a directory have been removed and the
    [Remove] of the directory itself fails, the path is looked at again:
    if that [Stat] reports not-found [RemoveAll] returns nil, and
    otherwise it returns the error of the [Remove]. *)
Theorem RemoveAll_final_remove fuel p s infos s0 tr0 s1 tr1 e s2 st s3 :
  lists_dir fs p s infos s0 tr0 ->
  removeChildren (RemoveAll fs fuel) p infos s0 = Some (None, s1, tr1) ->
  fs_Remove fs p s1 = (Some e, s2) ->
  fs_Stat fs p s2 = (st, s3) ->
  RemoveAll fs (S fuel) p s
    = Some (if os_IsNotExist (result_err st) then None else Some e, s3,
            tr0 ++ tr1 ++ [CallRemove p (Some e); CallStat p st]).
Proof.
  intros Hls Hch Hrm Hst.
  apply RemoveAll_returns. eapply return_restat; try eassumption.
  apply removeChildren_inv. exact Hch.
Qed.

(** C7, amended.  The errors of the backing filesystem are either
    swallowed or returned as they are.  Swallowed are a not-found of the
    first [Stat], of the native bulk delete and of [OpenFile], the
    failure of the final [Remove] when the [Stat] that follows reports
    not-found, and whatever [Close] returns.  When [RemoveAll] returns
    nil every error met was one of these.  When it returns an error,
    that error is the one the backing filesystem returned in the last
    call made, or in the [Readdir] before the last [Close], or in the
    final [Remove] before the one [Stat] that did not report not-found;
    every error met before was swallowed, and no call follows: nothing
    is retried and no error is changed. *)
Theorem RemoveAll_errors fuel p s r s' tr :
  RemoveAll fs fuel p s = Some (r, s', tr) ->
  errors_accounted swallowed_alone r tr.
Proof. apply RemoveAll_accounted. Qed.

(** C8.  Every handle that [RemoveAll] opens it closes before it
    returns: the handles open after its calls are those open before.
    When [Readdir] fails, the handle is closed and then the error of
    [Readdir] is returned. *)
Theorem RemoveAll_closes_handles
    (File_eq_dec : forall f g : File, {f = g} + {f <> g}) fuel p s :
  (forall r s' tr,
     RemoveAll fs fuel p s = Some (r, s', tr) ->
     forall open, open_handles File_eq_dec open tr = open) /\
  (forall info s1 f s2 e s3 cr s4,
     fs_RemoveAller fs = None ->
     fs_Stat fs p s = (Ok info, s1) -> IsDir info = true ->
     fs_OpenFile fs p O_RDONLY 0 s1 = (Ok f, s2) ->
     file_Readdir fs f 0 s2 = (Err e, s3) ->
     file_Close fs f s3 = (cr, s4) ->
     RemoveAll fs (S fuel) p s
       = Some (Some e, s4,
               [CallStat p (Ok info); CallOpenFile p O_RDONLY 0 (Ok f);
                CallReaddir f 0 (Err e); CallClose f cr])).
Proof.
  split.
  - intros r s' tr Hrun. exact (RemoveAll_handles fs File_eq_dec _ _ _ _ _ _ Hrun).
  - intros. apply RemoveAll_returns. eapply return_readdir; eassumption.
Qed.

(** C10, amended.  [MkdirAll] always returns.  It calls [Mkdir] once for
    each non-empty slash-separated prefix of [name] (taken from the
    root), shortest first, on [path.Clean] of that prefix, which is the
    prefix itself when no element of [name] is [.] or [..].  It returns
    nil exactly when every call made succeeded or failed with an
    already-exists error, and then every prefix has had its call;
    otherwise it returns the error of its last call, which is the first
    error of another kind, and the deeper prefixes get no call. *)
Theorem MkdirAll_calls name perm s :
  (exists r s' tr,
     MkdirAll fs name perm s = Some (r, s', tr) /\
     mkdir_outcome perm (map GoPath.Clean (prefixes name)) r tr /\
     (forallb mkdir_tolerated tr = true <-> r = None)) /\
  (Forall (fun x => plain x = true) (elements name) ->
   map GoPath.Clean (prefixes name) = prefixes name).
Proof.
  split.
  - destruct (MkdirFacts.mkdirEach_outcome fs perm (GoPath.Split name) "/" s)
      as (r & s' & tr & Hrun & Hout).
    fold (elements name) in Hout. fold (mkdir_targets name) in Hout.
    rewrite MkdirFacts.mkdir_targets_Clean in Hout.
    exists r, s', tr. split; [exact Hrun|]. split; [exact Hout|].
    exact (MkdirFacts.outcome_tolerated _ _ _ _ Hout).
  - intros Hplain. rewrite <- MkdirFacts.mkdir_targets_Clean.
    apply MkdirFacts.elements_kept in Hplain.
    destruct Hplain as [Hk Hns].
    exact (MkdirFacts.running_paths_prefixes (elements name) []
             (Forall_nil _) (Forall_nil _) Hk Hns).
Qed.

End Properties.

(** C9.  On the reference filesystem, whatever it lists and with or
    without the native bulk delete, [RemoveAll] returns for every path
    and every well-formed tree, given fuel enough.  In the manual walk a
    path that resolves to an entry other than the root is removed with
    all below it, and nil is returned.  So it is for the tree of the
    deep-nesting test, ten directories deep with a file at the bottom:
    eleven nested calls remove [/a], and none of the eleven paths is
    found afterwards. *)
Theorem RemoveAll_terminates :
  (forall cfg root p,
     MemFS.wf root ->
     exists fuel r s' tr,
       RemoveAll (MemFS.filer cfg) fuel p root = Some (r, s', tr)) /\
  (forall cfg root p t,
     MemFS.has_RemoveAll cfg = false -> MemFS.wf root ->
     MemFS.resolve p <> [] ->
     MemFS.lookup (MemFS.resolve p) root = Some t ->
     exists fuel tr,
       RemoveAll (MemFS.filer cfg) fuel p root
       = Some (None, MemFS.delete (MemFS.resolve p) root, tr) /\
       MemFS.lookup (MemFS.resolve p) (MemFS.delete (MemFS.resolve p) root)
       = None) /\
  (exists tr,
     RemoveAll (MemFS.filer (MemFS.mkConfig true false)) 11 "/a" ten_levels
     = Some (None, MemFS.Dir [], tr) /\
     Forall (fun p => fst (MemFS.Stat p (MemFS.Dir [])) = Err MemFS.ENOENT)
       ten_level_paths).
Proof.
  split; [|split].
  - intros cfg root p. apply MemFSWalk.terminates.
  - intros cfg root p t Hman Hwf Hne Hl.
    destruct (MemFSWalk.all_removable cfg Hman t root p Hwf Hne Hl)
      as (fuel & tr & Hrun).
    exists fuel, tr. split; [exact Hrun|].
    apply MemFSFacts.lookup_delete. exact Hne.
  - eexists. split; [vm_compute; reflexivity|].
    repeat constructor.
Qed.

(* ===================================================================== *)
(** ** The properties at work, on the filesystems of the tests            *)
(* ===================================================================== *)

Section Runs.

Import MemFS Tests.

Lemma RemoveAll_not_exist_witness :
  RemoveAll (filer native) 1 "/nonexistent" (Dir [])
    = Some (None, Dir [], [CallRemoveAll "/nonexistent" (Some ENOENT)]) /\
  RemoveAll (filer manual) 1 "/nonexistent" (Dir [])
    = Some (None, Dir [], [CallStat "/nonexistent" (Err ENOENT)]).
Proof.
  split.
  - eapply (proj1 (RemoveAll_not_exist (filer native) 0 "/nonexistent" (Dir [])));
      reflexivity.
  - exact (proj2 (RemoveAll_not_exist (filer manual) 0 "/nonexistent" (Dir []))
             ENOENT (Dir []) eq_refl eq_refl).
Defined.

Lemma RemoveAll_native_witness :
  RemoveAll (filer native) 1 "/a" ten_levels
    = Some (None, Dir [], [CallRemoveAll "/a" None]).
Proof.
  exact (proj1 (RemoveAll_native (filer native) NativeRemoveAll 0 "/a"
                  ten_levels None (Dir []) eq_refl eq_refl)).
Defined.

Lemma RemoveAll_file_witness :
  RemoveAll (filer manual) 1 "/test.txt" one_file
    = Some (None, Dir [],
            [CallStat "/test.txt" (Ok (info_of "test.txt" (File 0)));
             CallRemove "/test.txt" None]).
Proof.
  exact (proj1 (RemoveAll_file (filer manual) 0 "/test.txt" one_file
                  (info_of "test.txt" (File 0)) one_file None (Dir [])
                  eq_refl eq_refl eq_refl eq_refl)).
Defined.

(** C4 as it was stated fails on memfs itself: [RemoveAll] of the file
    [/test.txt] makes no call of [Remove] at all, the native bulk delete
    being called instead. *)
Lemma RemoveAll_file_delegated :
  fs_Stat (filer native) "/test.txt" one_file
    = (Ok (info_of "test.txt" (File 0)), one_file) /\
  IsDir (info_of "test.txt" (File 0)) = false /\
  RemoveAll (filer native) 1 "/test.txt" one_file
    = Some (None, Dir [], [CallRemoveAll "/test.txt" None]) /\
  count_Remove "/test.txt"
    ([CallRemoveAll "/test.txt" None] : list (Call Errno (list string))) = 0.
Proof. repeat split. Qed.

Lemma RemoveAll_child_fails_witness :
  exists s' tr,
    RemoveAll failing_remove 3 "/parent" nested
      = Some (Some removeErr, s', tr) /\
    removals tr = ["/parent/child/file.txt"].
Proof.
  do 2 eexists. split.
  - eapply (RemoveAll_child_fails failing_remove 2 "/parent" nested)
      with (pre := dot_infos)
           (c := info_of "child" (Dir [("file.txt", File 0)]))
           (post := [info_of "sibling" (File 0)]).
    + split; [reflexivity|]. do 6 eexists. repeat split; reflexivity.
    + reflexivity.
    + vm_compute. reflexivity.
    + reflexivity.
    + vm_compute. reflexivity.
  - reflexivity.
Defined.

Lemma RemoveAll_final_remove_witness :
  exists tr,
    RemoveAll grumbling_remove 1 "/testdir" one_dir = Some (None, Dir [], tr) /\
    skipn 4 tr = [CallRemove "/testdir" (Some ENOTEMPTY);
                  CallStat "/testdir" (Err ENOENT)].
Proof.
  eexists. split.
  - refine (RemoveAll_final_remove grumbling_remove 0 "/testdir" one_dir
             (listing manual []) one_dir
             [CallStat "/testdir" (Ok (info_of "testdir" (Dir [])));
              CallOpenFile "/testdir" O_RDONLY 0 (Ok ["testdir"]);
              CallReaddir ["testdir"] 0 (Ok (listing manual []));
              CallClose ["testdir"] None]
             one_dir [] ENOTEMPTY (Dir []) (Err ENOENT) (Dir []) _ _ _ _).
    + split; [reflexivity|]. do 6 eexists. repeat split; reflexivity.
    + reflexivity.
    + reflexivity.
    + reflexivity.
  - reflexivity.
Defined.

Lemma RemoveAll_errors_witness :
  exists s' tr,
    RemoveAll failing_remove 3 "/parent" nested
      = Some (Some removeErr, s', tr) /\
    errors_accounted swallowed_alone (Some removeErr) tr.
Proof.
  do 2 eexists. split; [vm_compute; reflexivity|].
  eapply (RemoveAll_errors failing_remove 3 "/parent" nested).
  vm_compute. reflexivity.
Defined.

(** C7 as it was stated fails on the filesystem of
    [TestRemoveAllOpenFileNotExistError]: the first [Stat] succeeds, no
    [Remove] is made, and the not-found of [OpenFile] is turned into
    nil. *)
Lemma RemoveAll_open_not_exist :
  exists tr,
    RemoveAll open_not_exist 1 "/testdir" one_dir = Some (None, one_dir, tr) /\
    tr = [CallStat "/testdir" (Ok (info_of "testdir" (Dir [])));
          CallOpenFile "/testdir" O_RDONLY 0 (Err ENOENT)] /\
    ~ errors_accounted swallowed_top_only None tr.
Proof.
  eexists. split; [reflexivity|]. split; [reflexivity|].
  simpl. intros Habs.
  inversion Habs as [|c tr Hc Htl|]; subst.
  inversion Htl as [|c tr Hc2 _|]; subst. discriminate.
Qed.

Lemma RemoveAll_closes_handles_witness :
  (exists r s' tr,
     RemoveAll (filer manual) 11 "/a" ten_levels = Some (r, s', tr) /\
     open_handles handle_eq_dec [] tr = []) /\
  RemoveAll failing_readdir 1 "/testdir" one_dir
    = Some (Some readdirErr, one_dir,
            [CallStat "/testdir" (Ok (info_of "testdir" (Dir [])));
             CallOpenFile "/testdir" O_RDONLY 0 (Ok ["testdir"]);
             CallReaddir ["testdir"] 0 (Err readdirErr);
             CallClose ["testdir"] None]).
Proof.
  split.
  - do 3 eexists. split; [vm_compute; reflexivity|].
    eapply (proj1 (RemoveAll_closes_handles (filer manual) handle_eq_dec
                     11 "/a" ten_levels)).
    vm_compute. reflexivity.
  - eapply (proj2 (RemoveAll_closes_handles failing_readdir handle_eq_dec
                     0 "/testdir" one_dir)); reflexivity.
Defined.

Lemma RemoveAll_terminates_witness :
  exists fuel r s' tr,
    RemoveAll (filer manual) fuel "/a" ten_levels = Some (r, s', tr).
Proof.
  apply (proj1 RemoveAll_terminates manual ten_levels "/a").
  apply (MemFSFacts.wf_chain
           ["a"; "b"; "c"; "d"; "e"; "f"; "g"; "h"; "i"; "j"] "file.txt");
    repeat constructor.
Defined.

Lemma MkdirAll_calls_witness :
  map GoPath.Clean (prefixes "/a/b/c/d") = prefixes "/a/b/c/d" /\
  exists s' tr,
    MkdirAll (filer manual) "/a/b/c/d" 493 (Dir []) = Some (None, s', tr) /\
    mkdir_paths tr = ["/a"; "/a/b"; "/a/b/c"; "/a/b/c/d"].
Proof.
  split.
  - apply (proj2 (MkdirAll_calls (filer manual) "/a/b/c/d" 493 (Dir []))).
    repeat constructor.
  - do 2 eexists. split; [vm_compute; reflexivity|reflexivity].
Defined.

(** C10 as it was stated fails on a path with a [.] element: [Mkdir]
    is called twice on [/a] and never on the prefix [/a/.]. *)
Lemma MkdirAll_dot_element :
  exists s' tr,
    MkdirAll (filer manual) "/a/./b" 493 (Dir []) = Some (None, s', tr) /\
    mkdir_paths tr = ["/a"; "/a"; "/a/b"] /\
    prefixes "/a/./b" = ["/a"; "/a/."; "/a/./b"] /\
    ~ NoDup (mkdir_paths tr).
Proof.
  do 2 eexists. split; [vm_compute; reflexivity|].
  split; [reflexivity|]. split; [reflexivity|].
  simpl. intros Hnd. inversion Hnd as [|x l Hnot _]; subst.
  apply Hnot. left. reflexivity.
Qed.

End Runs.

(* ===================================================================== *)
(** ** More on the manual walk of [RemoveAll]                             *)
(* ===================================================================== *)

Section WalkFacts.

Context {E FS File : Type} `{ErrorKind E}.
Variable fs : Filer E FS File.

Lemma touched_app (a b : list (Call E File)) :
  touched (a ++ b) = touched a ++ touched b.
Proof. unfold touched. apply flat_map_app. Qed.

Lemma listed_names_app (a b : list (Call E File)) :
  listed_names (a ++ b) = listed_names a ++ listed_names b.
Proof. unfold listed_names. apply flat_map_app. Qed.

Lemma lists_dir_calls p s infos s0 tr0 :
  lists_dir fs p s infos s0 tr0 ->
  touched tr0 = [p; p] /\ listed_names tr0 = map Name infos /\
  Forall (fun c => walk_discipline c = true) tr0.
Proof.
  intros [_ (info & s1 & f & s2 & s3 & cr & _ & _ & _ & _ & _ & ->)].
  split; [reflexivity|]. split; [apply app_nil_r|].
  repeat constructor.
Qed.

Lemma children_discipline (recurse : string -> @M E FS File (option E)) p :
  (forall q s r s' tr,
     recurse q s = Some (r, s', tr) ->
     Forall (fun c => walk_discipline c = true) tr) ->
  forall infos s r s' tr,
    children_at recurse p infos s r s' tr ->
    Forall (fun c => walk_discipline c = true) tr.
Proof.
  intros Hrec. induction 1 as [s|c rest s r s' tr _ _ IH|c rest s e s1 tr1 _ Hc
                              |c rest s s1 tr1 r s2 tr2 _ Hc _ IH].
  - constructor.
  - exact IH.
  - exact (Hrec _ _ _ _ _ Hc).
  - apply Forall_app. split; [exact (Hrec _ _ _ _ _ Hc)|exact IH].
Qed.

Lemma walk_discipline_all fuel :
  fs_RemoveAller fs = None ->
  forall p s r s' tr,
    RemoveAll fs fuel p s = Some (r, s', tr) ->
    Forall (fun c => walk_discipline c = true) tr.
Proof.
  intros Hman.
  induction fuel as [|fuel IH]; intros p s r s' tr Hrun; [discriminate|].
  apply RemoveAll_inv in Hrun.
  destruct Hrun as [ra err s' Hnat Hra
                   |e s' Hnat Hst
                   |info s1 r s2 Hnat Hst Hdir Hrm
                   |info s1 e s2 Hnat Hst Hdir Hop
                   |info s1 f s2 e s3 cr s4 Hnat Hst Hdir Hop Hrd Hcl
                   |infos s0 tr0 e s1 tr1 Hls Hch
                   |infos s0 tr0 s1 tr1 s2 Hls Hch Hrm
                   |infos s0 tr0 s1 tr1 e s2 st s3 Hls Hch Hrm Hst];
    try (repeat constructor; fail).
  - rewrite Hman in Hnat. discriminate.
  - apply Forall_app. split; [apply (lists_dir_calls _ _ _ _ _ Hls)|].
    exact (children_discipline _ _ IH _ _ _ _ _ Hch).
  - apply Forall_app. split; [apply (lists_dir_calls _ _ _ _ _ Hls)|].
    apply Forall_app. split; [|repeat constructor].
    exact (children_discipline _ _ IH _ _ _ _ _ Hch).
  - apply Forall_app. split; [apply (lists_dir_calls _ _ _ _ _ Hls)|].
    apply Forall_app. split; [|repeat constructor].
    exact (children_discipline _ _ IH _ _ _ _ _ Hch).
Qed.

Lemma under_refl p : under p p.
Proof. exists []. symmetry. apply app_nil_r. Qed.

Lemma under_child p name q :
  entry_name name -> ((name =? ".") || (name =? ".."))%bool = false ->
  under (GoPath.Join p name) q -> under p q.
Proof.
  intros [Hne Hns] Hdots [rest Hrest].
  apply orb_false_elim in Hdots. destruct Hdots as [H1 H2].
  rewrite (GoPathFacts.clean_elems_Join p name Hne H1 H2 Hns) in Hrest.
  exists ([name] ++ rest). rewrite Hrest, <- app_assoc. reflexivity.
Qed.

Lemma children_confined (recurse : string -> @M E FS File (option E)) p :
  (forall q s r s' tr,
     recurse q s = Some (r, s', tr) ->
     Forall entry_name (listed_names tr) -> Forall (under q) (touched tr)) ->
  forall infos s r s' tr,
    children_at recurse p infos s r s' tr ->
    Forall entry_name (map Name infos) ->
    Forall entry_name (listed_names tr) ->
    Forall (under p) (touched tr).
Proof.
  intros Hrec. induction 1 as [s|c rest s r s' tr _ _ IH|c rest s e s1 tr1 Hskip Hc
                              |c rest s s1 tr1 r s2 tr2 Hskip Hc _ IH];
    intros Hnames Hlisted.
  - constructor.
  - inversion Hnames; subst. auto.
  - inversion Hnames as [|? ? Hn _]; subst.
    eapply Forall_impl; [|exact (Hrec _ _ _ _ _ Hc Hlisted)].
    intros q. apply under_child; assumption.
  - inversion Hnames as [|? ? Hn Hrest]; subst.
    rewrite listed_names_app in Hlisted. apply Forall_app in Hlisted.
    destruct Hlisted as [Hl1 Hl2].
    rewrite touched_app. apply Forall_app. split; [|auto].
    eapply Forall_impl; [|exact (Hrec _ _ _ _ _ Hc Hl1)].
    intros q. apply under_child; assumption.
Qed.

Lemma confined_all fuel :
  forall p s r s' tr,
    RemoveAll fs fuel p s = Some (r, s', tr) ->
    Forall entry_name (listed_names tr) ->
    Forall (under p) (touched tr).
Proof.
  induction fuel as [|fuel IH]; intros p s r s' tr Hrun Hlisted;
    [discriminate|].
  apply RemoveAll_inv in Hrun.
  assert (Hp : under p p) by apply under_refl.
  destruct Hrun as [ra err s' Hnat Hra
                   |e s' Hnat Hst
                   |info s1 r s2 Hnat Hst Hdir Hrm
                   |info s1 e s2 Hnat Hst Hdir Hop
                   |info s1 f s2 e s3 cr s4 Hnat Hst Hdir Hop Hrd Hcl
                   |infos s0 tr0 e s1 tr1 Hls Hch
                   |infos s0 tr0 s1 tr1 s2 Hls Hch Hrm
                   |infos s0 tr0 s1 tr1 e s2 st s3 Hls Hch Hrm Hst];
    try (repeat constructor; assumption);
    destruct (lists_dir_calls _ _ _ _ _ Hls) as (Ht0 & Hl0 & _);
    rewrite !listed_names_app, Hl0 in Hlisted;
    apply Forall_app in Hlisted; destruct Hlisted as [Hnames Hlisted];
    rewrite !touched_app, Ht0.
  - apply Forall_app. split; [repeat constructor; assumption|].
    exact (children_confined _ _ IH _ _ _ _ _ Hch Hnames Hlisted).
  - apply Forall_app in Hlisted. destruct Hlisted as [Hlisted _].
    apply Forall_app. split; [repeat constructor; assumption|].
    apply Forall_app. split; [|repeat constructor; assumption].
    exact (children_confined _ _ IH _ _ _ _ _ Hch Hnames Hlisted).
  - apply Forall_app in Hlisted. destruct Hlisted as [Hlisted _].
    apply Forall_app. split; [repeat constructor; assumption|].
    apply Forall_app. split; [|repeat constructor; assumption].
    exact (children_confined _ _ IH _ _ _ _ _ Hch Hnames Hlisted).
Qed.

Lemma removeChildren_skipped (recurse : string -> @M E FS File (option E))
    p pre rest s :
  forallb skipped pre = true ->
  removeChildren recurse p (pre ++ rest) s = removeChildren recurse p rest s.
Proof.
  induction pre as [|c pre IH]; [reflexivity|].
  cbn [forallb app removeChildren]. intros Hall.
  apply andb_prop in Hall. destruct Hall as [Hc Hpre].
  unfold skipped in Hc. rewrite Hc. exact (IH Hpre).
Qed.

End WalkFacts.

(* ===================================================================== *)
(** ** More on [MkdirAll]                                                  *)
(* ===================================================================== *)

Module MkdirMore.

Import GoPath GoPathFacts MkdirFacts.

Lemma elements_only_slashes name :
  elements name = [] <-> only_slashes name = true.
Proof.
  unfold elements, only_slashes.
  induction name as [|c name IH]; [split; reflexivity|].
  cbn [Split list_ascii_of_string forallb].
  destruct (Ascii.eqb c "/").
  - cbn [filter String.eqb negb andb]. exact IH.
  - destruct (Split name) as [|h t] eqn:Hs.
    + exfalso. exact (Split_nonempty _ Hs).
    + cbn [filter String.eqb negb andb]. split; discriminate.
Qed.

Lemma prefixes_from_rooted elems : forall q,
  rooted (q ++ "/") = true ->
  Forall (fun x => rooted x = true) (prefixes_from q elems).
Proof.
  induction elems as [|x elems IH]; intros q Hq; [constructor|].
  assert (Hqx : rooted (q ++ "/" ++ x) = true).
  { destruct q; [reflexivity|exact Hq]. }
  cbn [prefixes_from]. constructor; [exact Hqx|].
  apply IH. destruct q; exact Hqx.
Qed.

Lemma Clean_Clean x : rooted x = true -> Clean (Clean x) = Clean x.
Proof.
  intros Hx. rewrite (Clean_rooted (Clean x)) by (apply rooted_Clean, Hx).
  rewrite clean_elems_Clean. symmetry. apply Clean_rooted, Hx.
Qed.

(** The paths [MkdirAll] is to make are absolute and clean. *)
Lemma targets_absolute name :
  Forall (fun q => rooted q = true /\ Clean q = q) (mkdir_targets name).
Proof.
  rewrite mkdir_targets_Clean. apply Forall_map.
  eapply Forall_impl; [|apply (prefixes_from_rooted _ ""); reflexivity].
  intros x Hx. split; [apply rooted_Clean, Hx|apply Clean_Clean, Hx].
Qed.

Section Loop.

Context {E FS File : Type} `{ErrorKind E}.
Variable fs : Filer E FS File.

Lemma mkdirEach_nothing perm names p s :
  filter (fun x => negb (x =? "")) names = [] ->
  mkdirEach fs perm p names s = Some (None, s, []).
Proof.
  induction names as [|name rest IH]; [reflexivity|].
  cbn [filter mkdirEach]. destruct (name =? ""); [exact IH|discriminate].
Qed.

(** One turn of the loop of [MkdirAll], on an element that is not
    empty. *)
Lemma mkdirEach_step perm name rest p s err s1 :
  (name =? "") = false ->
  fs_Mkdir fs (Join p name) perm s = (err, s1) ->
  mkdirEach fs perm p (name :: rest) s
  = if negb (mkdir_tolerated (CallMkdir (File := File) (Join p name) perm err))
    then Some (err, s1, [CallMkdir (Join p name) perm err])
    else match mkdirEach fs perm (Join p name) rest s1 with
         | Some (r, s2, tr) =>
             Some (r, s2, CallMkdir (Join p name) perm err :: tr)
         | None => None
         end.
Proof.
  intros Hname Hmk. cbn [mkdirEach]. rewrite Hname. unfold Mkdir.
  run_call Hmk. unfold mkdir_tolerated. cbn [call_error].
  destruct err as [e|]; [destruct (IsExist e)|]; reflexivity.
Qed.

Lemma paths_within perm name r (tr : list (Call E File)) :
  mkdir_outcome perm (mkdir_targets name) r tr ->
  exists rest, mkdir_targets name = mkdir_paths tr ++ rest.
Proof.
  intros [_ Hout]. destruct r as [e|].
  - destruct Hout as (tr0 & q & rest & _ & _ & _ & Ht). exists rest. exact Ht.
  - destruct Hout as [Hp _]. exists []. rewrite app_nil_r. auto.
Qed.

Section Present.

Variable present : string -> FS -> Prop.

Section Additive.

Hypothesis Hmakes : forall q perm s r s',
  fs_Mkdir fs q perm s = (r, s') ->
  mkdir_tolerated (CallMkdir (File := File) q perm r) = true ->
  present q s'.
Hypothesis Hkeeps : forall x q perm s r s',
  present x s -> fs_Mkdir fs q perm s = (r, s') -> present x s'.

Lemma mkdirEach_keeps perm x names : forall p s r s' tr,
  present x s ->
  mkdirEach fs perm p names s = Some (r, s', tr) ->
  present x s'.
Proof.
  induction names as [|name rest IH]; intros p s r s' tr Hx.
  { intros Heq. inversion Heq; subst. exact Hx. }
  destruct (name =? "") eqn:Hname.
  { cbn [mkdirEach]. rewrite Hname. apply IH. exact Hx. }
  destruct (fs_Mkdir fs (Join p name) perm s) as [err s1] eqn:Hmk.
  rewrite (mkdirEach_step _ _ _ _ _ _ _ Hname Hmk).
  assert (Hx1 : present x s1) by (eapply Hkeeps; eassumption).
  destruct (negb (mkdir_tolerated (CallMkdir (Join p name) perm err))).
  - intros Heq. inversion Heq; subst. exact Hx1.
  - destruct (mkdirEach fs perm (Join p name) rest s1)
      as [[[r2 s2] t2]|] eqn:Hrest; [|discriminate].
    intros Heq. inversion Heq; subst. exact (IH _ _ _ _ _ Hx1 Hrest).
Qed.

Lemma mkdirEach_creates perm names : forall p s s' tr,
  mkdirEach fs perm p names s = Some (None, s', tr) ->
  Forall (fun q => present q s')
    (running_paths p (filter (fun x => negb (x =? "")) names)).
Proof.
  induction names as [|name rest IH]; intros p s s' tr; [constructor|].
  destruct (name =? "") eqn:Hname.
  { cbn [mkdirEach filter]. rewrite Hname. apply IH. }
  cbn [filter]. rewrite Hname. cbn [negb running_paths].
  destruct (fs_Mkdir fs (Join p name) perm s) as [err s1] eqn:Hmk.
  rewrite (mkdirEach_step _ _ _ _ _ _ _ Hname Hmk).
  destruct (mkdir_tolerated (CallMkdir (File := File) (Join p name) perm err))
    eqn:Htol; cbn [negb].
  2:{ intros Heq. inversion Heq; subst. discriminate. }
  destruct (mkdirEach fs perm (Join p name) rest s1)
    as [[[r2 s2] t2]|] eqn:Hrest; [|discriminate].
  intros Heq. inversion Heq; subst.
  constructor; [|exact (IH _ _ _ _ Hrest)].
  eapply mkdirEach_keeps; [|exact Hrest].
  eapply Hmakes; eassumption.
Qed.

End Additive.

Lemma mkdirEach_present perm names :
  mkdir_conventional fs present ->
  forall p s,
  Forall (fun q => present q s)
    (running_paths p (filter (fun x => negb (x =? "")) names)) ->
  exists tr,
    mkdirEach fs perm p names s = Some (None, s, tr) /\
    forallb failed_exists tr = true.
Proof.
  intros Hconv.
  induction names as [|name rest IH]; intros p s Hall.
  { exists []. split; reflexivity. }
  destruct (name =? "") eqn:Hname.
  { cbn [mkdirEach filter] in *. rewrite Hname in *. apply IH. exact Hall. }
  cbn [filter] in Hall. rewrite Hname in Hall. cbn [negb running_paths] in Hall.
  inversion Hall as [|? ? Hq Hrest]; subst.
  assert (Hex : exists e, fs_Mkdir fs (Join p name) perm s = (Some e, s) /\
                          IsExist e = true)
    by (eapply mkdir_exists; eassumption).
  destruct Hex as (e & Hmk & He).
  destruct (IH _ _ Hrest) as (tr & Hrun & Htr).
  exists (CallMkdir (Join p name) perm (Some e) :: tr).
  rewrite (mkdirEach_step _ _ _ _ _ _ _ Hname Hmk).
  unfold mkdir_tolerated. cbn [call_error]. rewrite He. cbn [negb].
  rewrite Hrun. split; [reflexivity|].
  cbn [forallb]. unfold failed_exists at 1. cbn [call_error].
  rewrite He, Htr. reflexivity.
Qed.

End Present.

End Loop.

End MkdirMore.

Module MemFSMkdir.

Import MemFS MemFSFacts.

Lemma find_app_some c es es' t :
  find c es = Some t -> find c (es ++ es') = Some t.
Proof.
  induction es as [|[n u] es IH]; [discriminate|].
  simpl. destruct (n =? c); auto.
Qed.

Lemma find_app_new c es new : find c (es ++ [(c, new)]) <> None.
Proof.
  induction es as [|[n u] es IH]; simpl.
  - rewrite String.eqb_refl. discriminate.
  - destruct (n =? c); [discriminate|exact IH].
Qed.

Lemma find_update_other c c' f es :
  (c' =? c) = false -> find c (update c' f es) = find c es.
Proof.
  intros Hne. induction es as [|[n u] es IH]; [reflexivity|].
  simpl. destruct (n =? c') eqn:Hn; simpl.
  - apply String.eqb_eq in Hn. subst n. rewrite Hne. reflexivity.
  - destruct (n =? c); [reflexivity|exact IH].
Qed.

(** Making a directory takes nothing away. *)
Lemma lookup_add_some c new parent : forall x t,
  lookup x t <> None -> lookup x (add parent c new t) <> None.
Proof.
  induction parent as [|c0 parent IH]; intros x t Hx;
    (destruct t as [n|es]; [exact Hx|]).
  - destruct x as [|x0 x]; [discriminate|].
    cbn [add lookup] in *.
    destruct (find x0 es) as [t'|] eqn:Hf; [|contradiction].
    rewrite (find_app_some _ _ _ _ Hf). exact Hx.
  - destruct x as [|x0 x]; [discriminate|].
    cbn [add lookup] in *.
    destruct (c0 =? x0) eqn:Hc.
    + apply String.eqb_eq in Hc. subst x0. rewrite find_update.
      destruct (find c0 es) as [t'|]; [|contradiction].
      simpl. apply IH. exact Hx.
    + rewrite (find_update_other _ _ _ _ Hc). exact Hx.
Qed.

(** The directory made is there. *)
Lemma lookup_add_new c new parent : forall t es,
  lookup parent t = Some (Dir es) ->
  lookup (parent ++ [c]) (add parent c new t) <> None.
Proof.
  induction parent as [|c0 parent IH]; intros t es.
  - simpl. intros Heq. inversion Heq; subst. simpl.
    destruct (find c (es ++ [(c, new)])) eqn:Hf; [discriminate|].
    exfalso. exact (find_app_new _ _ _ Hf).
  - destruct t as [n|es0]; [discriminate|].
    cbn [lookup app add]. rewrite find_update.
    destruct (find c0 es0) as [t0|]; [|discriminate].
    simpl. apply IH.
Qed.

Lemma resolve_split p :
  resolve p <> [] ->
  resolve p = removelast (resolve p) ++ [base (resolve p)].
Proof. intros Hne. unfold base. apply app_removelast_last. exact Hne. Qed.

(** The reference filesystem keeps the conventions of [Mkdir]. *)
Lemma mkdir_conventions cfg : mkdir_conventional (filer cfg) present_in.
Proof.
  split.
  - intros q perm s r s'. cbn [fs_Mkdir filer]. unfold Mkdir, present_in.
    destruct (lookup (resolve q) s) as [t|] eqn:Hl.
    { intros Heq _. apply pair_equal_spec in Heq. destruct Heq as [_ <-].
      rewrite Hl. discriminate. }
    assert (Hne : resolve q <> []).
    { intros Hq. rewrite Hq in Hl. discriminate. }
    destruct (lookup (removelast (resolve q)) s) as [[n|es]|] eqn:Hp;
      intros Heq Htol; apply pair_equal_spec in Heq; destruct Heq as [<- <-];
      try discriminate.
    rewrite (resolve_split _ Hne) at 1.
    exact (lookup_add_new _ _ _ _ _ Hp).
  - intros x q perm s r s' Hx. cbn [fs_Mkdir filer]. unfold Mkdir.
    destruct (lookup (resolve q) s);
      [intros Heq; apply pair_equal_spec in Heq; destruct Heq as [_ <-];
       exact Hx|].
    destruct (lookup (removelast (resolve q)) s) as [[n|es]|];
      intros Heq; apply pair_equal_spec in Heq; destruct Heq as [_ <-];
      try exact Hx.
    apply lookup_add_some. exact Hx.
  - intros q perm s Hq. exists EEXIST. cbn [fs_Mkdir filer]. unfold Mkdir.
    unfold present_in in Hq.
    destruct (lookup (resolve q) s); [split; reflexivity|contradiction].
Qed.

End MemFSMkdir.

(* ===================================================================== *)
(** ** Depth of the recursion, and making then removing                   *)
(* ===================================================================== *)

Module MemFSDepth.

Import MemFS MemFSFacts.

Lemma height_entry c t es :
  In (c, t) es ->
  height t
  <= fold_right (fun (e : string * node) h => Nat.max (height (snd e)) h) 0 es.
Proof.
  induction es as [|e es IH]; [contradiction|].
  intros [->|Hin]; simpl.
  - apply Nat.le_max_l.
  - etransitivity; [exact (IH Hin)|apply Nat.le_max_r].
Qed.

Section Manual.

Variable cfg : Config.
Hypothesis Hman : has_RemoveAll cfg = false.

(** The loop, when [fuel] nested calls remove each entry. *)
Lemma children_removed_within fuel p : forall es,
  Forall (fun e =>
            forall root q,
              wf root -> resolve q <> [] ->
              lookup (resolve q) root = Some (snd e) ->
              exists tr,
                RemoveAll (filer cfg) fuel q root
                = Some (None, delete (resolve q) root, tr)) es ->
  forall st, wf st -> lookup (resolve p) st = Some (Dir es) ->
  exists st' tr,
    children_at (RemoveAll (filer cfg) fuel) p
      (map (fun e => info_of (fst e) (snd e)) es) st None st' tr /\
    wf st' /\ lookup (resolve p) st' = Some (Dir []) /\
    (resolve p <> [] -> delete (resolve p) st' = delete (resolve p) st).
Proof.
  induction es as [|[c tc] es IH]; intros Hall st Hwf Hl.
  { exists st, []. split; [constructor|auto]. }
  inversion Hall as [|? ? Hrc Hall']; subst. simpl in Hrc.
  pose proof (wf_lookup _ _ _ Hwf Hl) as Hwfd.
  apply wf_entries in Hwfd. destruct Hwfd as [Hnd Hvalid].
  inversion Hvalid as [|? ? [Hvc _] _]; subst. simpl in Hvc.
  pose proof (resolve_child p c Hvc) as Hres.
  destruct (Hrc st (GoPath.Join p c)) as (tr1 & Hrun1).
  { exact Hwf. }
  { rewrite Hres. apply snoc_nonempty. }
  { rewrite Hres, lookup_app, Hl. simpl. rewrite String.eqb_refl.
    reflexivity. }
  rewrite Hres in Hrun1.
  destruct (IH Hall' (delete (resolve p ++ [c]) st))
    as (st' & tr2 & Hch & Hwf' & Hl' & Hdel).
  { apply wf_delete. exact Hwf. }
  { rewrite (lookup_delete_child c _ _ _ Hl), drop_head by exact Hnd.
    reflexivity. }
  exists st', (tr1 ++ tr2).
  split; [|split; [exact Hwf'|split; [exact Hl'|]]].
  - apply children_next with (s1 := delete (resolve p ++ [c]) st).
    + apply valid_name_inv in Hvc. destruct Hvc as (_ & H1 & H2 & _).
      unfold skipped. simpl. rewrite H1, H2. reflexivity.
    + exact Hrun1.
    + exact Hch.
  - intros Hne. rewrite (Hdel Hne). apply delete_delete_child. exact Hne.
Qed.

(** A tree is removed by as many nested calls as it is deep, and one. *)
Lemma removable_within : forall t fuel,
  height t < fuel ->
  forall root p,
    wf root -> resolve p <> [] -> lookup (resolve p) root = Some t ->
    exists tr,
      RemoveAll (filer cfg) fuel p root
      = Some (None, delete (resolve p) root, tr).
Proof.
  apply (node_rect_nested
           (fun t => forall fuel, height t < fuel ->
              forall root p,
                wf root -> resolve p <> [] ->
                lookup (resolve p) root = Some t ->
                exists tr,
                  RemoveAll (filer cfg) fuel p root
                  = Some (None, delete (resolve p) root, tr))).
  - intros n fuel Hfuel root p Hwf Hne Hl.
    destruct fuel as [|fuel]; [inversion Hfuel|]. eexists.
    apply RemoveAll_returns. eapply return_file.
    + exact (MemFSWalk.manual_walk cfg Hman).
    + simpl. exact (MemFSWalk.stat_found _ _ _ Hl).
    + reflexivity.
    + simpl. apply (MemFSWalk.remove_leaf _ _ _ Hne Hl). left. exists n.
      reflexivity.
  - intros es IHes fuel Hfuel root p Hwf Hne Hl.
    destruct fuel as [|fuel]; [inversion Hfuel|].
    cbn [height] in Hfuel. apply Nat.succ_lt_mono in Hfuel.
    destruct (children_removed_within fuel p es) with (st := root)
      as (st' & tr & Hch & Hwf' & Hl' & Hdel); auto.
    { rewrite Forall_forall in *. intros [c t] Hin. simpl.
      apply (IHes (c, t) Hin).
      eapply Nat.le_lt_trans; [exact (height_entry _ _ _ Hin)|exact Hfuel]. }
    eexists. apply RemoveAll_returns. rewrite <- (Hdel Hne).
    eapply return_removed.
    + exact (MemFSWalk.lists_found_dir cfg Hman _ _ _ Hl).
    + apply MemFSWalk.children_listing. exact Hch.
    + simpl. apply (MemFSWalk.remove_leaf _ _ _ Hne Hl'). right. reflexivity.
Qed.

End Manual.

End MemFSDepth.

Module MemFSRoundTrip.

Import MemFS MemFSFacts MemFSMkdir.

Lemma find_none_fresh c es : find c es = None -> ~ In c (map fst es).
Proof.
  induction es as [|[n t] es IH]; [auto|].
  simpl. destruct (n =? c) eqn:Hn; [discriminate|].
  intros Hf [Heq|Hin]; [|exact (IH Hf Hin)].
  subst n. rewrite String.eqb_refl in Hn. discriminate.
Qed.

Lemma find_app_fresh c es new :
  find c es = None -> find c (es ++ [(c, new)]) = Some new.
Proof.
  induction es as [|[n u] es IH]; simpl.
  - rewrite String.eqb_refl. reflexivity.
  - destruct (n =? c); [discriminate|exact IH].
Qed.

(** The directory made is the one asked for. *)
Lemma lookup_add_fresh c new parent : forall t es,
  lookup parent t = Some (Dir es) -> find c es = None ->
  lookup (parent ++ [c]) (add parent c new t) = Some new.
Proof.
  induction parent as [|c0 parent IH]; intros t es.
  - simpl. intros Heq Hf. inversion Heq; subst. simpl.
    rewrite (find_app_fresh _ _ _ Hf). reflexivity.
  - destruct t as [n|es0]; [discriminate|].
    cbn [lookup app add]. rewrite find_update.
    destruct (find c0 es0) as [t0|]; [|discriminate].
    simpl. apply IH.
Qed.

Lemma wf_update_found c f es t :
  find c es = Some t -> wf (f t) -> wf (Dir es) -> wf (Dir (update c f es)).
Proof.
  intros Hf Hft Hwf. apply wf_entries in Hwf. destruct Hwf as [Hnd Hall].
  constructor; [rewrite update_names; exact Hnd|].
  clear Hnd. revert Hf.
  induction Hall as [|[n u] es [Hn Hu] Hall IH]; [discriminate|].
  simpl. destruct (n =? c); intros Hf.
  - inversion Hf; subst. constructor; simpl; auto.
  - constructor; simpl; auto.
Qed.

(** Making a directory with a fresh valid name keeps the tree
    well-formed. *)
Lemma wf_add c new parent : forall t es,
  wf t -> wf new -> valid_name c = true ->
  lookup parent t = Some (Dir es) -> find c es = None ->
  wf (add parent c new t).
Proof.
  induction parent as [|c0 parent IH]; intros t es Hwf Hnew Hv.
  - simpl. intros Heq Hf. inversion Heq; subst. simpl.
    apply wf_entries in Hwf. destruct Hwf as [Hnd Hall]. constructor.
    + rewrite map_app. simpl. apply NoDup_app; [exact Hnd|repeat constructor; intros []|].
      intros n Hn [<-|[]]. exact (find_none_fresh _ _ Hf Hn).
    + apply Forall_app. split; [exact Hall|]. repeat constructor; assumption.
  - destruct t as [n|es0]; [discriminate|].
    cbn [lookup add]. destruct (find c0 es0) as [t0|] eqn:Hf0; [|discriminate].
    intros Hl Hf. apply (wf_update_found _ _ _ _ Hf0); [|exact Hwf].
    apply (IH _ es); auto.
    apply wf_entries in Hwf. exact (wf_find _ _ _ (proj2 Hwf) Hf0).
Qed.

(** What is made below [c] goes when [c] is deleted. *)
Lemma delete_add_under c more x new parent t :
  parent ++ [x] = c :: more ->
  delete [c] (add parent x new t) = delete [c] t.
Proof.
  intros Hpath.
  destruct parent as [|c0 parent]; (destruct t as [n|es]; [reflexivity|]).
  - simpl in Hpath. inversion Hpath; subst. simpl. unfold drop.
    rewrite filter_app. simpl. rewrite String.eqb_refl. simpl.
    rewrite app_nil_r. reflexivity.
  - simpl in Hpath. inversion Hpath; subst. simpl.
    rewrite drop_update. reflexivity.
Qed.

Lemma mkdir_fresh q perm s done x es :
  resolve q = done ++ [x] ->
  lookup done s = Some (Dir es) -> find x es = None ->
  Mkdir q perm s = (None, add done x (Dir []) s).
Proof.
  intros Hq Hl Hf. unfold Mkdir, base. rewrite Hq.
  rewrite lookup_app, Hl. simpl. rewrite Hf.
  rewrite removelast_last, last_last, Hl. reflexivity.
Qed.

Lemma lookup_first c more s t :
  lookup (c :: more) s = Some t -> lookup [c] s <> None.
Proof.
  destruct s as [n|es]; [discriminate|]. simpl.
  destruct (find c es); discriminate.
Qed.

(** The loop of [MkdirAll] on the reference filesystem, when its first
    directory is not there yet: every [Mkdir] makes its directory. *)
Lemma mkdirEach_fresh cfg perm names : forall p done s es,
  wf s -> resolve p = done ->
  lookup done s = Some (Dir es) ->
  Forall (fun x => valid_name x = true)
    (filter (fun x => negb (x =? "")) names) ->
  (forall x, hd_error (filter (fun x => negb (x =? "")) names) = Some x ->
             find x es = None) ->
  exists s' tr,
    mkdirEach (filer cfg) perm p names s = Some (None, s', tr) /\
    wf s' /\
    forall c more,
      done ++ filter (fun x => negb (x =? "")) names = c :: more ->
      delete [c] s' = delete [c] s /\ lookup [c] s' <> None.
Proof.
  induction names as [|name rest IH]; intros p done s es Hwf <- Hl Hvalid Hfresh.
  { exists s, []. split; [reflexivity|]. split; [exact Hwf|].
    intros c more Hpath. split; [reflexivity|].
    simpl in Hpath. rewrite app_nil_r in Hpath. rewrite Hpath in Hl.
    exact (lookup_first _ _ _ _ Hl). }
  destruct (name =? "") eqn:Hname.
  { cbn [mkdirEach filter] in *. rewrite Hname in *. cbn [negb] in *.
    eapply IH; eauto. }
  cbn [filter] in *. rewrite Hname in *. cbn [negb] in *.
  inversion Hvalid as [|? ? Hv Hvalid']; subst.
  assert (Hq : resolve (GoPath.Join p name) = resolve p ++ [name])
    by (apply resolve_child; exact Hv).
  assert (Hf : find name es = None) by (apply Hfresh; reflexivity).
  pose proof (mkdir_fresh _ perm _ _ _ _ Hq Hl Hf) as Hmk.
  rewrite (MkdirMore.mkdirEach_step (filer cfg) perm name rest p s None _
             Hname Hmk).
  cbn [mkdir_tolerated call_error negb].
  destruct (IH (GoPath.Join p name) (resolve p ++ [name])
              (add (resolve p) name (Dir []) s) [])
    as (s' & tr & Hrun & Hwf' & Hrest); auto.
  { apply (wf_add _ _ _ _ es); auto. constructor; constructor. }
  { apply lookup_add_fresh with (es := es); assumption. }
  exists s', (CallMkdir (GoPath.Join p name) perm None :: tr).
  rewrite Hrun. split; [reflexivity|]. split; [exact Hwf'|].
  intros c more Hpath.
  destruct (Hrest c more) as [Hdel Hthere].
  { rewrite <- app_assoc. exact Hpath. }
  split; [|exact Hthere].
  rewrite Hdel.
  destruct (resolve p) as [|c0 ps] eqn:Hrp; simpl in Hpath.
  - inversion Hpath; subst. apply (delete_add_under c [] c). reflexivity.
  - inversion Hpath; subst. apply (delete_add_under c (ps ++ [name]) name).
    reflexivity.
Qed.

End MemFSRoundTrip.

(* ===================================================================== *)
(** ** Further properties of [RemoveAll] and [MkdirAll]                   *)
(* ===================================================================== *)

Section FurtherProperties.

Context {E FS File : Type} `{ErrorKind E}.
Variable fs : Filer E FS File.

(** X1.  In the manual walk [RemoveAll] only reads and removes: every
    call is a [Stat], an [OpenFile], a [Readdir], a [Close] or a
    [Remove]; every [OpenFile] is read-only with no permission bits and
    every [Readdir] asks for the whole directory.  It makes no [Mkdir]
    and no native bulk delete. *)
Theorem RemoveAll_walk_read_only fuel p s r s' tr :
  fs_RemoveAller fs = None ->
  RemoveAll fs fuel p s = Some (r, s', tr) ->
  Forall (fun c => walk_discipline c = true) tr.
Proof. intros Hman. apply walk_discipline_all. exact Hman. Qed.

(** X2.  [RemoveAll p] stays under [p]: when the names the backing
    filesystem lists are single path elements and not empty, every path
    passed to it in a call resolves to [p] or to a path below [p]. *)
Theorem RemoveAll_stays_under fuel p s r s' tr :
  RemoveAll fs fuel p s = Some (r, s', tr) ->
  Forall entry_name (listed_names tr) ->
  Forall (under p) (touched tr).
Proof. apply confined_all. Qed.

(** X4.  Only [.] and [..] are passed over.  When a directory lists,
    before any entry that is removed, an entry whose name joined to the
    path of the directory gives that path again (an empty name does),
    and the calls that list the directory leave the backing filesystem
    as it was, [RemoveAll] calls itself on the same path in the same
    state and never returns, however many nested calls it is allowed. *)
Theorem RemoveAll_self_entry p s info f infos cr pre c post :
  fs_RemoveAller fs = None ->
  fs_Stat fs p s = (Ok info, s) -> IsDir info = true ->
  fs_OpenFile fs p O_RDONLY 0 s = (Ok f, s) ->
  file_Readdir fs f 0 s = (Ok infos, s) ->
  file_Close fs f s = (cr, s) ->
  infos = pre ++ c :: post ->
  forallb skipped pre = true -> skipped c = false ->
  GoPath.Join p (Name c) = p ->
  forall fuel, RemoveAll fs fuel p s = None.
Proof.
  intros Hman Hst Hdir Hop Hrd Hcl -> Hpre Hc Hjoin.
  assert (Hls : lists_dir fs p s (pre ++ c :: post) s
                  [CallStat p (Ok info); CallOpenFile p O_RDONLY 0 (Ok f);
                   CallReaddir f 0 (Ok (pre ++ c :: post)); CallClose f cr]).
  { split; [exact Hman|]. exists info, s, f, s, s, cr. auto 10. }
  induction fuel as [|fuel IH]; [reflexivity|].
  rewrite (RemoveAll_dir fs _ _ _ _ _ _ Hls).
  rewrite (removeChildren_skipped _ _ _ _ _ Hpre).
  cbn [removeChildren]. unfold skipped in Hc. rewrite Hc, Hjoin.
  unfold bind. rewrite IH. reflexivity.
Qed.

(** X5.  The root.  For a name that is empty or made of slashes only,
    [MkdirAll] returns nil at once: no call is made and nothing is
    changed.  For every other name it calls [Mkdir] at least once. *)
Theorem MkdirAll_only_slashes name perm s :
  (only_slashes name = true ->
   MkdirAll fs name perm s = Some (None, s, [])) /\
  (only_slashes name = false ->
   forall r s' tr, MkdirAll fs name perm s = Some (r, s', tr) -> tr <> []).
Proof.
  split.
  - intros Hname. apply MkdirMore.mkdirEach_nothing.
    apply MkdirMore.elements_only_slashes. exact Hname.
  - intros Hname r s' tr Hrun.
    destruct (MkdirFacts.mkdirEach_outcome fs perm (GoPath.Split name) "/" s)
      as (r0 & s0 & tr0 & Hrun0 & Hout).
    unfold MkdirAll in Hrun. rewrite Hrun in Hrun0. inversion Hrun0; subst.
    fold (elements name) in Hout. destruct Hout as [_ Hout].
    destruct r0 as [e|].
    + destruct Hout as (tr1 & q & rest & -> & _). destruct tr1; discriminate.
    + destruct Hout as [Hpaths _]. intros ->.
      destruct (elements name) as [|x l] eqn:Hel; [|discriminate].
      apply MkdirMore.elements_only_slashes in Hel.
      rewrite Hel in Hname. discriminate.
Qed.

(** X6.  Whatever the name, relative or with [.] and [..] in it, every
    path that [MkdirAll] passes to [Mkdir] is absolute and clean: it
    starts with a slash and [path.Clean] leaves it as it is. *)
Theorem MkdirAll_absolute_paths name perm s r s' tr :
  MkdirAll fs name perm s = Some (r, s', tr) ->
  Forall (fun q => GoPath.rooted q = true /\ GoPath.Clean q = q)
    (mkdir_paths tr).
Proof.
  intros Hrun.
  destruct (MkdirFacts.mkdirEach_outcome fs perm (GoPath.Split name) "/" s)
    as (r0 & s0 & tr0 & Hrun0 & Hout).
  unfold MkdirAll in Hrun. rewrite Hrun in Hrun0. inversion Hrun0; subst.
  fold (elements name) in Hout. fold (mkdir_targets name) in Hout.
  destruct (MkdirMore.paths_within perm name _ _ Hout) as [rest Hrest].
  pose proof (MkdirMore.targets_absolute name) as Hall.
  rewrite Hrest in Hall. apply Forall_app in Hall. exact (proj1 Hall).
Qed.

Section Present.

Variable present : string -> FS -> Prop.

(** X7.  When a [Mkdir] that returns nil or an already-exists error
    leaves its path present, and no [Mkdir] makes a path that is present
    go away, a [MkdirAll] that returns nil leaves every prefix of the
    name present, each in its clean form.  Nothing is asked of what
    [Mkdir] answers for a path that is there already. *)
Theorem MkdirAll_creates name perm s s' tr :
  (forall q perm s r s',
     fs_Mkdir fs q perm s = (r, s') ->
     mkdir_tolerated (CallMkdir (File := File) q perm r) = true ->
     present q s') ->
  (forall x q perm s r s',
     present x s -> fs_Mkdir fs q perm s = (r, s') -> present x s') ->
  MkdirAll fs name perm s = Some (None, s', tr) ->
  Forall (fun q => present q s') (map GoPath.Clean (prefixes name)).
Proof.
  intros Hmakes Hkeeps Hrun. rewrite <- MkdirFacts.mkdir_targets_Clean.
  exact (MkdirMore.mkdirEach_creates fs present Hmakes Hkeeps
           perm _ _ _ _ _ Hrun).
Qed.

(** X8.  Making twice: when [Mkdir] keeps its conventions, after a
    [MkdirAll] that returned nil a second [MkdirAll] of the same name
    returns nil too and changes nothing; every [Mkdir] it calls fails
    with an already-exists error. *)
Theorem MkdirAll_again name perm perm' s s' tr :
  mkdir_conventional fs present ->
  MkdirAll fs name perm s = Some (None, s', tr) ->
  exists tr',
    MkdirAll fs name perm' s' = Some (None, s', tr') /\
    forallb failed_exists tr' = true.
Proof.
  intros Hconv Hrun.
  apply (MkdirMore.mkdirEach_present fs present perm' _ Hconv).
  destruct Hconv as [Hmakes Hkeeps _].
  exact (MkdirMore.mkdirEach_creates fs present Hmakes Hkeeps
           perm _ _ _ _ _ Hrun).
Qed.

End Present.

End FurtherProperties.

(** X9.  The recursion of [RemoveAll] goes as deep as the tree and no
    deeper: on the reference filesystem, in the manual walk, an entry
    other than the root is removed with all below it by one more nested
    call than the entry is deep. *)
Theorem RemoveAll_depth cfg root p t :
  MemFS.has_RemoveAll cfg = false -> MemFS.wf root ->
  MemFS.resolve p <> [] ->
  MemFS.lookup (MemFS.resolve p) root = Some t ->
  exists tr,
    RemoveAll (MemFS.filer cfg) (S (height t)) p root
    = Some (None, MemFS.delete (MemFS.resolve p) root, tr).
Proof.
  intros Hman Hwf Hne Hl.
  apply (MemFSDepth.removable_within cfg Hman t); auto.
Qed.

(** X10.  Making and removing.  On the reference filesystem, when the
    first directory of a name is not there and the name has no [.] or
    [..], [MkdirAll] of the name returns nil, and [RemoveAll] of that
    first directory then returns nil and gives back the filesystem as it
    was before. *)
Theorem MkdirAll_then_RemoveAll cfg es name c cs perm :
  MemFS.wf (MemFS.Dir es) ->
  elements name = c :: cs ->
  Forall (fun x => plain x = true) (elements name) ->
  MemFS.find c es = None ->
  exists s1 tr1 fuel tr2,
    MkdirAll (MemFS.filer cfg) name perm (MemFS.Dir es)
    = Some (None, s1, tr1) /\
    RemoveAll (MemFS.filer cfg) fuel ("/" ++ c)%string s1
    = Some (None, MemFS.Dir es, tr2).
Proof.
  intros Hwf Hel Hplain Hfresh.
  destruct (MkdirFacts.elements_kept name Hplain) as [Hk Hns].
  assert (Hvalid : Forall (fun x => MemFS.valid_name x = true) (elements name)).
  { rewrite Forall_forall in *. intros x Hx.
    destruct (Hk x Hx) as (H0 & H1 & H2). specialize (Hns x Hx).
    unfold MemFS.valid_name. rewrite H0, H1, (H2 eq_refl). exact Hns. }
  destruct (MemFSRoundTrip.mkdirEach_fresh cfg perm (GoPath.Split name) "/" []
              (MemFS.Dir es) es)
    as (s1 & tr1 & Hrun & Hwf1 & Hrest); auto.
  { fold (elements name). rewrite Hel. simpl. intros x Hx.
    inversion Hx; subst. exact Hfresh. }
  destruct (Hrest c cs) as [Hdel Hthere]; [exact Hel|].
  assert (Hback : MemFS.delete [c] s1 = MemFS.Dir es).
  { rewrite Hdel. simpl. f_equal. apply MemFSFacts.drop_fresh.
    apply MemFSRoundTrip.find_none_fresh. exact Hfresh. }
  assert (Hc : MemFS.valid_name c = true).
  { rewrite Hel in Hvalid. inversion Hvalid; assumption. }
  assert (Hres : MemFS.resolve ("/" ++ c)%string = [c]).
  { rewrite Hel in Hk, Hns. inversion Hk; inversion Hns; subst.
    change ("/" ++ c)%string with ("/" ++ GoPath.JoinSlash ([] ++ [c]))%string.
    rewrite <- MkdirFacts.Join_rooted by (assumption || constructor).
    exact (MemFSFacts.resolve_child "/" c Hc). }
  exists s1, tr1.
  destruct (MemFS.lookup [c] s1) as [t|] eqn:Hl; [|contradiction].
  destruct (MemFS.has_RemoveAll cfg) eqn:Hnat.
  - exists 1. eexists. split; [exact Hrun|].
    apply RemoveAll_returns. rewrite <- Hback.
    assert (Hra : MemFS.NativeRemoveAll ("/" ++ c)%string s1
                  = (None, MemFS.delete [c] s1)).
    { unfold MemFS.NativeRemoveAll. rewrite Hres, Hl. reflexivity. }
    assert (Hcap : fs_RemoveAller (MemFS.filer cfg)
                   = Some MemFS.NativeRemoveAll).
    { simpl. rewrite Hnat. reflexivity. }
    exact (@return_native _ _ _ _ (MemFS.filer cfg)
             (RemoveAll (MemFS.filer cfg) 0) ("/" ++ c)%string s1
             MemFS.NativeRemoveAll None (MemFS.delete [c] s1) Hcap Hra).
  - destruct (MemFSWalk.all_removable cfg Hnat t s1 ("/" ++ c)%string)
      as (fuel & tr2 & Hrun2); auto.
    { rewrite Hres. discriminate. }
    { rewrite Hres. exact Hl. }
    exists fuel, tr2. split; [exact Hrun|].
    rewrite Hres, Hback in Hrun2. exact Hrun2.
Qed.

Section FurtherRuns.

Import MemFS Tests.

Lemma RemoveAll_walk_read_only_witness :
  exists r s' tr,
    RemoveAll (filer manual) 3 "/parent" nested = Some (r, s', tr) /\
    Forall (fun c => walk_discipline c = true) tr.
Proof.
  do 3 eexists. split; [vm_compute; reflexivity|].
  eapply (RemoveAll_walk_read_only (filer manual) 3 "/parent" nested).
  - reflexivity.
  - vm_compute. reflexivity.
Defined.

Lemma RemoveAll_stays_under_witness :
  exists r s' tr,
    RemoveAll (filer manual) 3 "/parent" nested = Some (r, s', tr) /\
    Forall (under "/parent") (touched tr).
Proof.
  do 3 eexists. split; [vm_compute; reflexivity|].
  eapply (RemoveAll_stays_under (filer manual) 3 "/parent" nested).
  - vm_compute. reflexivity.
  - apply Forall_forall. intros n Hn. simpl in Hn.
    repeat (destruct Hn as [<-|Hn]; [split; reflexivity|]). destruct Hn.
Defined.

Lemma RemoveAll_self_entry_witness :
  RemoveAll (filer manual) 1000 "/d" (Dir [("d", Dir [("", File 0)])]) = None.
Proof.
  eapply (RemoveAll_self_entry (filer manual) "/d")
    with (pre := dot_infos) (c := info_of "" (File 0)) (post := []);
    reflexivity.
Defined.

Lemma MkdirAll_only_slashes_witness :
  MkdirAll (filer manual) "//" 493 one_dir = Some (None, one_dir, []) /\
  [CallMkdir "/testdir" 493 (Some EEXIST)]
  <> ([] : list (Call Errno (list string))).
Proof.
  split.
  - apply (proj1 (MkdirAll_only_slashes (filer manual) "//" 493 one_dir)).
    reflexivity.
  - apply (proj2 (MkdirAll_only_slashes (filer manual) "/testdir" 493
                    one_dir) eq_refl None one_dir).
    reflexivity.
Defined.

Lemma MkdirAll_absolute_paths_witness :
  exists r s' tr,
    MkdirAll (filer manual) "a/../../b/./c" 493 (Dir []) = Some (r, s', tr) /\
    mkdir_paths tr = ["/a"; "/"; "/"; "/b"; "/b"; "/b/c"] /\
    Forall (fun q => GoPath.rooted q = true /\ GoPath.Clean q = q)
      (mkdir_paths tr).
Proof.
  do 3 eexists. split; [vm_compute; reflexivity|]. split; [reflexivity|].
  eapply (MkdirAll_absolute_paths (filer manual) "a/../../b/./c" 493 (Dir [])).
  vm_compute. reflexivity.
Defined.

Lemma MkdirAll_creates_witness :
  exists s' tr,
    MkdirAll (filer manual) "/a/b/c/d" 493 (Dir []) = Some (None, s', tr) /\
    Forall (fun q => present_in q s')
      (map GoPath.Clean (prefixes "/a/b/c/d")).
Proof.
  do 2 eexists. split; [vm_compute; reflexivity|].
  eapply (MkdirAll_creates (filer manual) present_in "/a/b/c/d" 493 (Dir [])).
  - destruct (MemFSMkdir.mkdir_conventions manual) as [Hmakes _ _].
    exact Hmakes.
  - destruct (MemFSMkdir.mkdir_conventions manual) as [_ Hkeeps _].
    exact Hkeeps.
  - vm_compute. reflexivity.
Defined.

Lemma MkdirAll_again_witness :
  exists tr',
    MkdirAll (filer manual) "/a/b/c" 493 (spine ["a"; "b"; "c"])
    = Some (None, spine ["a"; "b"; "c"], tr') /\
    forallb failed_exists tr' = true.
Proof.
  eapply (MkdirAll_again (filer manual) present_in "/a/b/c" 493 493 (Dir [])).
  - apply MemFSMkdir.mkdir_conventions.
  - vm_compute. reflexivity.
Defined.

Lemma RemoveAll_depth_witness :
  exists tr,
    RemoveAll (filer manual) 11 "/a" ten_levels = Some (None, Dir [], tr).
Proof.
  apply (RemoveAll_depth manual ten_levels "/a"
           (chain ["b"; "c"; "d"; "e"; "f"; "g"; "h"; "i"; "j"] "file.txt")).
  - reflexivity.
  - apply (MemFSFacts.wf_chain
             ["a"; "b"; "c"; "d"; "e"; "f"; "g"; "h"; "i"; "j"] "file.txt");
      repeat constructor.
  - discriminate.
  - reflexivity.
Defined.

Lemma MkdirAll_then_RemoveAll_witness :
  exists s1 tr1 fuel tr2,
    MkdirAll (filer manual) "/a/b/c" 493 (Dir [("x", File 3)])
    = Some (None, s1, tr1) /\
    RemoveAll (filer manual) fuel "/a" s1
    = Some (None, Dir [("x", File 3)], tr2).
Proof.
  apply (MkdirAll_then_RemoveAll manual [("x", File 3)] "/a/b/c" "a"
           ["b"; "c"] 493).
  - constructor; [repeat constructor; intros []|]. repeat constructor.
  - reflexivity.
  - repeat constructor.
  - reflexivity.
Defined.

End FurtherRuns.

(* ===================================================================== *)
(** ** What [RemoveAll] leaves alone                                      *)
(* ===================================================================== *)

Module MemFSFrame.

Import MemFS MemFSFacts.

Lemma find_drop_other c c' es :
  (c' =? c) = false -> find c (drop c' es) = find c es.
Proof.
  intros Hne. unfold drop. induction es as [|[n u] es IH]; [reflexivity|].
  simpl. destruct (n =? c') eqn:Hn; simpl.
  - apply String.eqb_eq in Hn. subst n. rewrite Hne. exact IH.
  - destruct (n =? c); [reflexivity|exact IH].
Qed.

(** Deleting at a path changes what is seen at no path outside it. *)
Lemma lookup_delete_outside name cs : forall q t,
  cs <> [] -> (forall rest, q <> cs ++ rest) ->
  option_map (info_of name) (lookup q (delete cs t))
  = option_map (info_of name) (lookup q t).
Proof.
  induction cs as [|c cs IH]; intros q t Hne Hout; [contradiction|].
  destruct t as [n|es]; [reflexivity|].
  destruct q as [|q0 q].
  { destruct cs; reflexivity. }
  destruct (c =? q0) eqn:Hc.
  - apply String.eqb_eq in Hc. subst q0.
    destruct cs as [|c1 cs].
    + exfalso. exact (Hout q eq_refl).
    + rewrite delete_cons by discriminate. cbn [lookup].
      rewrite find_update. destruct (find c es) as [t0|]; [|reflexivity].
      simpl option_map at 2. cbv iota. apply IH; [discriminate|].
      intros rest Hq. apply (Hout rest). rewrite Hq. reflexivity.
  - destruct cs as [|c1 cs].
    + cbn [delete lookup]. rewrite (find_drop_other _ _ _ Hc). reflexivity.
    + rewrite delete_cons by discriminate. cbn [lookup].
      rewrite (MemFSMkdir.find_update_other _ _ _ _ Hc). reflexivity.
Qed.

(** Where a successful [RemoveAll] of a path other than the root leaves
    the reference filesystem. *)
Lemma final_state cfg root p fuel s' tr :
  wf root -> resolve p <> [] ->
  RemoveAll (filer cfg) fuel p root = Some (None, s', tr) ->
  s' = root \/ s' = delete (resolve p) root.
Proof.
  intros Hwf Hne Hrun. destruct fuel as [|fuel]; [discriminate|].
  destruct (has_RemoveAll cfg) eqn:Hnat.
  - destruct (NativeRemoveAll p root) as [err s1] eqn:Hra.
    assert (Hcap : fs_RemoveAller (filer cfg) = Some NativeRemoveAll).
    { simpl. rewrite Hnat. reflexivity. }
    pose proof (RemoveAll_returns (filer cfg) fuel p root _ _ _
                  (@return_native _ _ _ _ (filer cfg) _ p root
                     NativeRemoveAll err s1 Hcap Hra)) as Heq.
    rewrite Hrun in Heq. inversion Heq; subst s1.
    unfold NativeRemoveAll in Hra.
    destruct (resolve p) as [|c cs]; [contradiction|].
    destruct (lookup (c :: cs) root);
      apply pair_equal_spec in Hra; destruct Hra as [_ <-]; auto.
  - destruct (lookup (resolve p) root) as [t|] eqn:Hl.
    + destruct (MemFSWalk.all_removable cfg Hnat t root p Hwf Hne Hl)
        as (fuel0 & tr0 & Hrun0).
      pose proof (RemoveAll_mono (filer cfg) _ _ _ _ _
                    (Nat.le_max_l (S fuel) fuel0) Hrun) as H1.
      pose proof (RemoveAll_mono (filer cfg) _ _ _ _ _
                    (Nat.le_max_r (S fuel) fuel0) Hrun0) as H2.
      rewrite H1 in H2. inversion H2. auto.
    + assert (Hst : fs_Stat (filer cfg) p root = (Err ENOENT, root)).
      { simpl. unfold Stat. rewrite Hl. reflexivity. }
      pose proof (RemoveAll_returns (filer cfg) fuel p root _ _ _
                    (@return_stat _ _ _ _ (filer cfg) _ p root ENOENT root
                       (MemFSWalk.manual_walk cfg Hnat) Hst)) as Heq.
      rewrite Hrun in Heq. inversion Heq; subst. auto.
Qed.

End MemFSFrame.

(** X11.  [RemoveAll] changes nothing else: on the reference
    filesystem, with the manual walk or the native bulk delete, after
    [RemoveAll p] has returned nil, [Stat] of any path that is neither
    [p] nor below [p] reports what it reported before. *)
Theorem RemoveAll_leaves_rest cfg root p q fuel s' tr :
  MemFS.wf root ->
  RemoveAll (MemFS.filer cfg) fuel p root = Some (None, s', tr) ->
  ~ under p q ->
  fst (MemFS.Stat q s') = fst (MemFS.Stat q root).
Proof.
  intros Hwf Hrun Hout.
  assert (Hne : MemFS.resolve p <> []).
  { intros Hp. apply Hout. exists (MemFS.resolve q).
    unfold MemFS.resolve in Hp. rewrite Hp. reflexivity. }
  destruct (MemFSFrame.final_state cfg root p fuel s' tr Hwf Hne Hrun)
    as [->| ->]; [reflexivity|].
  pose proof (MemFSFrame.lookup_delete_outside
                (MemFS.base (MemFS.resolve q)) (MemFS.resolve p)
                (MemFS.resolve q) root Hne) as Hsame.
  unfold MemFS.Stat.
  destruct (MemFS.lookup (MemFS.resolve q)
              (MemFS.delete (MemFS.resolve p) root)) as [t'|];
    destruct (MemFS.lookup (MemFS.resolve q) root) as [t|];
    cbn [option_map fst] in *;
    (assert (Hq : forall rest : list string,
                MemFS.resolve q <> MemFS.resolve p ++ rest)
       by (intros rest Hrest; apply Hout; exists rest; exact Hrest));
    specialize (Hsame Hq); congruence.
Qed.

Section FrameRun.

Import MemFS Tests.

Lemma RemoveAll_leaves_rest_witness :
  fst (Stat "/parent/sibling"
         (Dir [("parent", Dir [("sibling", File 0)])]))
  = fst (Stat "/parent/sibling" nested).
Proof.
  eapply (RemoveAll_leaves_rest manual nested "/parent/child"
            "/parent/sibling" 2).
  - constructor; [repeat constructor; intros []|].
    repeat constructor; simpl; try tauto.
    intros [Heq|[]]. discriminate.
  - vm_compute. reflexivity.
  - intros [rest Hrest]. vm_compute in Hrest. discriminate.
Defined.

End FrameRun.

(* ===================================================================== *)
(** ** What a nil return of [RemoveAll] means                             *)
(* ===================================================================== *)

Module MemFSGone.

Import MemFS MemFSFacts.

(** In the manual walk the root is emptied and then kept: its [Remove]
    is refused. *)
Lemma root_refused cfg root p :
  has_RemoveAll cfg = false -> wf root -> resolve p = [] ->
  exists fuel s' tr,
    RemoveAll (filer cfg) fuel p root = Some (Some EINVAL, s', tr).
Proof.
  intros Hman Hwf Hcs. destruct root as [n|es].
  - exists 1. do 2 eexists. apply RemoveAll_returns. eapply return_file.
    + exact (MemFSWalk.manual_walk cfg Hman).
    + simpl. apply MemFSWalk.stat_found. rewrite Hcs. reflexivity.
    + reflexivity.
    + simpl. apply MemFSWalk.remove_root. exact Hcs.
  - assert (Hl : lookup (resolve p) (Dir es) = Some (Dir es)).
    { rewrite Hcs. reflexivity. }
    destruct (MemFSWalk.children_removed cfg p es) with (st := Dir es)
      as (fuel & st' & tr & Hch & Hwf' & Hst' & _); auto.
    { apply Forall_forall. intros e _. apply MemFSWalk.all_removable.
      exact Hman. }
    pose proof (@return_restat _ _ _ _ (filer cfg)
                  (RemoveAll (filer cfg) fuel) p (Dir es) _ _ _ _ _ _ _ _ _
                  (MemFSWalk.lists_found_dir cfg Hman _ _ _ Hl)
                  (MemFSWalk.children_listing cfg _ _ _ _ _ _ _ Hch)
                  (MemFSWalk.remove_root p st' Hcs)
                  (MemFSWalk.stat_found p st' _ Hst')) as Hret.
    apply RemoveAll_returns in Hret.
    exists (S fuel). do 2 eexists. exact Hret.
Qed.

(** After a nil return nothing is left at the path, whichever way
    [RemoveAll] went. *)
Lemma nil_gone cfg root p fuel s' tr :
  wf root ->
  RemoveAll (filer cfg) fuel p root = Some (None, s', tr) ->
  lookup (resolve p) s' = None.
Proof.
  intros Hwf Hrun. destruct fuel as [|fuel]; [discriminate|].
  destruct (has_RemoveAll cfg) eqn:Hnat.
  - destruct (NativeRemoveAll p root) as [err s1] eqn:Hra.
    assert (Hcap : fs_RemoveAller (filer cfg) = Some NativeRemoveAll).
    { simpl. rewrite Hnat. reflexivity. }
    pose proof (RemoveAll_returns (filer cfg) fuel p root _ _ _
                  (@return_native _ _ _ _ (filer cfg) _ p root
                     NativeRemoveAll err s1 Hcap Hra)) as Heq.
    rewrite Hrun in Heq. unfold NativeRemoveAll in Hra.
    destruct (resolve p) as [|c cs] eqn:Hcs.
    { apply pair_equal_spec in Hra. destruct Hra as [<- <-]. discriminate. }
    destruct (lookup (c :: cs) root) eqn:Hl;
      apply pair_equal_spec in Hra; destruct Hra as [<- <-];
      injection Heq as ->.
    + apply (lookup_delete (c :: cs) root). discriminate.
    + exact Hl.
  - destruct (lookup (resolve p) root) as [t|] eqn:Hl.
    + destruct (resolve p) as [|c cs] eqn:Hcs.
      * destruct (root_refused cfg root p Hnat Hwf Hcs)
          as (fuel0 & s0 & tr0 & Hrun0).
        pose proof (RemoveAll_mono (filer cfg) _ _ _ _ _
                      (Nat.le_max_l (S fuel) fuel0) Hrun) as H1.
        pose proof (RemoveAll_mono (filer cfg) _ _ _ _ _
                      (Nat.le_max_r (S fuel) fuel0) Hrun0) as H2.
        rewrite H1 in H2. discriminate.
      * assert (Hne : resolve p <> []) by (rewrite Hcs; discriminate).
        rewrite <- Hcs in *.
        destruct (MemFSWalk.all_removable cfg Hnat t root p Hwf Hne Hl)
          as (fuel0 & tr0 & Hrun0).
        pose proof (RemoveAll_mono (filer cfg) _ _ _ _ _
                      (Nat.le_max_l (S fuel) fuel0) Hrun) as H1.
        pose proof (RemoveAll_mono (filer cfg) _ _ _ _ _
                      (Nat.le_max_r (S fuel) fuel0) Hrun0) as H2.
        rewrite H1 in H2. injection H2 as -> _.
        exact (lookup_delete (resolve p) root Hne).
    + assert (Hst : fs_Stat (filer cfg) p root = (Err ENOENT, root)).
      { simpl. unfold Stat. rewrite Hl. reflexivity. }
      pose proof (RemoveAll_returns (filer cfg) fuel p root _ _ _
                    (@return_stat _ _ _ _ (filer cfg) _ p root ENOENT root
                       (MemFSWalk.manual_walk cfg Hnat) Hst)) as Heq.
      rewrite Hrun in Heq. injection Heq as <-. exact Hl.
Qed.


End MemFSGone.


(** X3.  Removing twice.  On the reference filesystem, once
    [RemoveAll p] has returned nil a second [RemoveAll p] returns nil
    too and changes nothing, after one call that reports not-found: the
    native bulk delete where there is one, a [Stat] otherwise. *)
Theorem RemoveAll_twice cfg root p fuel fuel' s' tr :
  MemFS.wf root ->
  RemoveAll (MemFS.filer cfg) fuel p root = Some (None, s', tr) ->
  RemoveAll (MemFS.filer cfg) (S fuel') p s'
  = Some (None, s',
          [if MemFS.has_RemoveAll cfg
           then CallRemoveAll p (Some MemFS.ENOENT)
           else CallStat p (Err MemFS.ENOENT)]).
Proof.
  intros Hwf Hrun.
  pose proof (MemFSGone.nil_gone cfg root p fuel s' tr Hwf Hrun) as Hl.
  destruct (MemFS.has_RemoveAll cfg) eqn:Hnat.
  - assert (Hcap : fs_RemoveAller (MemFS.filer cfg)
                   = Some MemFS.NativeRemoveAll).
    { simpl. rewrite Hnat. reflexivity. }
    assert (Hra : MemFS.NativeRemoveAll p s' = (Some MemFS.ENOENT, s')).
    { unfold MemFS.NativeRemoveAll.
      destruct (MemFS.resolve p); [discriminate|]. rewrite Hl. reflexivity. }
    exact (RemoveAll_returns (MemFS.filer cfg) fuel' p s' _ _ _
             (@return_native _ _ _ _ (MemFS.filer cfg) _ p s'
                MemFS.NativeRemoveAll _ s' Hcap Hra)).
  - assert (Hst : fs_Stat (MemFS.filer cfg) p s' = (Err MemFS.ENOENT, s')).
    { simpl. unfold MemFS.Stat. rewrite Hl. reflexivity. }
    exact (RemoveAll_returns (MemFS.filer cfg) fuel' p s' _ _ _
             (@return_stat _ _ _ _ (MemFS.filer cfg) _ p s' MemFS.ENOENT s'
                (MemFSWalk.manual_walk cfg Hnat) Hst)).
Qed.

Section GoneRuns.

Import MemFS Tests.



Lemma RemoveAll_twice_witness :
  RemoveAll (filer manual) 1 "/a" (Dir [])
  = Some (None, Dir [], [CallStat "/a" (Err ENOENT)]) /\
  RemoveAll (filer native) 1 "/a" (Dir [])
  = Some (None, Dir [], [CallRemoveAll "/a" (Some ENOENT)]).
Proof.
  assert (Hwf : wf ten_levels).
  { apply (MemFSFacts.wf_chain
             ["a"; "b"; "c"; "d"; "e"; "f"; "g"; "h"; "i"; "j"] "file.txt");
      repeat constructor. }
  split.
  - refine (RemoveAll_twice manual ten_levels "/a" 11 0 (Dir []) _ Hwf _).
    vm_compute. reflexivity.
  - refine (RemoveAll_twice native ten_levels "/a" 1 0 (Dir []) _ Hwf _).
    vm_compute. reflexivity.
Defined.

End GoneRuns.
